(** * OCTGui: reconstruction engine (OCTRecon.hpp) and DAQ acquisition loop (DAQ.cpp)

    A shallow embedding of [OCT::reconBscan], its helpers ([logCompress],
    [getDistortionOffset], [circshift]) and of [DAQ::acquire].

    Conventions of the embedding:
    - the floating sample type [T] is modelled by [R];
    - [std::vector] and [std::span] reads go through [at_], which is [None]
      out of range: an out-of-range [operator[]] is undefined behaviour;
    - [int] arithmetic is checked against the 32-bit range, an overflow is
      undefined behaviour;
    - a whole computation returns a [Res]: a value, an [assert] failure
      (process abort), a C++ exception raised by OpenCV, or undefined
      behaviour. *)

From Stdlib Require Import Reals Lra Lia ZArith NArith String Ascii Bool List.
Import ListNotations.

(** ** Results of a C++ computation *)

Inductive Res (A : Type) : Type :=
| Ok (a : A)
| Abort      (* a failed [assert]: the process terminates *)
| Raise      (* a C++ exception (an OpenCV [CV_Assert]) *)
| UB.        (* undefined behaviour *)
Arguments Ok {A} a.
Arguments Abort {A}.
Arguments Raise {A}.
Arguments UB {A}.

Definition res_bind {A B} (m : Res A) (k : A -> Res B) : Res B :=
  match m with
  | Ok a => k a
  | Abort => Abort
  | Raise => Raise
  | UB => UB
  end.

Notation "x <- m ;; k" := (res_bind m (fun x => k))
  (at level 61, m at next level, right associativity).

(** an [option] that is [None] on an out-of-range access *)
Definition of_opt {A} (o : option A) : Res A :=
  match o with Some a => Ok a | None => UB end.

(** ** Containers *)

(** checked [operator[]] *)
Definition at_ {A} (l : list A) (i : nat) : option A := nth_error l i.

(** [v[i] = x] on a vector of the right size *)
Fixpoint set_nth {A} (l : list A) (i : nat) (x : A) : list A :=
  match l, i with
  | [], _ => []
  | _ :: t, O => x :: t
  | h :: t, S i' => h :: set_nth t i' x
  end.

Fixpoint mapM {A B} (f : A -> option B) (l : list A) : option (list B) :=
  match l with
  | [] => Some []
  | a :: t =>
      match f a with
      | Some b => match mapM f t with Some bs => Some (b :: bs) | None => None end
      | None => None
      end
  end.

(** [cv::Mat_<E>]: a continuous matrix, row-major, each row holding
    [cols * channels] scalars. *)
Record Mat (E : Type) := mkMat { rows : nat; cols : nat; data : list (list E) }.
Arguments mkMat {E} rows cols data.
Arguments rows {E} m.
Arguments cols {E} m.
Arguments data {E} m.

(** the default-constructed (empty) [cv::Mat_] *)
Definition emptyMat {E} : Mat E := mkMat 0 0 [].

(** a matrix whose buffer holds [rows] rows of [cols] elements each, as
    every [cv::Mat] does *)
Definition wfMat {E} (m : Mat E) : Prop :=
  length (data m) = rows m /\ Forall (fun row => length row = cols m) (data m).

(** ** 32-bit [int] arithmetic *)

Definition INT_MIN : Z := (- 2 ^ 31)%Z.
Definition INT_MAX : Z := (2 ^ 31 - 1)%Z.

Definition toInt (z : Z) : Res Z :=
  if ((INT_MIN <=? z) && (z <=? INT_MAX))%Z then Ok z else UB.

Definition intAdd (a b : Z) : Res Z := toInt (a + b).
Definition intMul (a b : Z) : Res Z := toInt (a * b).

(** ** [circshift] (OCTRecon.hpp)

    [std::rotate(ptr, ptr + idx, ptr + cols)] on the first [cols] scalars
    of a row. *)
Definition rotate {E} (k n : nat) (row : list E) : list E :=
  let seg := firstn n row in
  skipn k seg ++ firstn k seg ++ skipn n row.

Definition circshift {E} (channels : Z) (m : Mat E) (idx : Z) : Res (Mat E) :=
  let c := Z.of_nat (cols m) in
  t <- intAdd idx c ;;
  (* [% mat.cols]: division by zero is undefined *)
  if (c =? 0)%Z then UB else
  let idx1 := Z.rem t c in
  depthCols <- intMul c channels ;;
  idx2 <- intMul idx1 channels ;;
  (* [ptr + idx] is formed in the row loop and must stay inside the row;
     a matrix without rows never enters the loop *)
  if ((0 <=? idx2) && (idx2 <=? depthCols))%Z || Nat.eqb (rows m) 0 then
    Ok (mkMat (rows m) (cols m)
          (map (rotate (Z.to_nat idx2) (Z.to_nat depthCols)) (data m)))
  else UB.

(** ** [shiftXCircular] (OCTRecon.hpp)

    [dst.create(src.size(), src.type())], then columns [[0, width - shift)]
    of [src] are copied to [[shift, width)] and columns
    [[width - shift, width)] to [[0, shift)]; [dst] is a new matrix. *)
Definition shiftXCircular {E} (src : Mat E) (shiftX : Z) : Res (Mat E) :=
  let width := Z.of_nat (cols src) in
  (* [shiftX % width]: division by zero is undefined *)
  if (width =? 0)%Z then UB else
  t <- intAdd (Z.rem shiftX width) width ;;
  let shift := Z.to_nat (Z.rem t width) in
  let w := cols src in
  Ok (mkMat (rows src) w
        (map (fun row => firstn shift (skipn (w - shift) row) ++ firstn (w - shift) row)
           (data src))).

(** ** Reconstruction engine (OCTRecon.hpp) *)
Module Recon.

Local Open Scope R_scope.

(** [phaseCalibUnit<T>] *)
Record phaseCalibUnit := mkUnit { idx : nat; l_coeff : R; r_coeff : R }.

(** [Calibration<T>] *)
Record Calibration := mkCalib {
  background : list R;
  phaseCalib : list phaseCalibUnit }.

(** [ScanConversionParams<T>] *)
Record ScanConversionParams := mkParams { contrast : R; brightness : R }.

(** [readTextFileToArray<T>(filename, dst)].  The file is given by the
    results of the successive extractions [ifs >> val]: [Some v] for a value
    read, [None] for a failed extraction; past the end of the list the
    extraction fails (end of file).  A closed file leaves [dst] as it is.
    [ifs >> val] runs before the test [i < dst.size()].  The messages
    printed after the loop are not modelled. *)
Fixpoint readLoop {A} (vals : list (option A)) (dst : list A) (i : nat) : list A :=
  match vals with
  | Some v :: rest =>
      if Nat.ltb i (length dst) then readLoop rest (set_nth dst i v) (S i) else dst
  | _ => dst
  end.

Definition readTextFileToArray {A} (isOpen : bool) (vals : list (option A))
    (dst : list A) : list A :=
  if isOpen then readLoop vals dst 0 else dst.

(** the values a file yields before its first failed extraction *)
Fixpoint parsedValues {A} (vals : list (option A)) : list A :=
  match vals with
  | Some v :: rest => v :: parsedValues rest
  | _ => []
  end.

(** [Calibration<T>(n_samples, backgroundFile, phaseFile)]: [background]
    and [phaseCalib] are value-initialised vectors of [n_samples] elements
    ([std::vector(n)] of a negative [int], converted to [size_t], throws
    [std::length_error]), then filled from the two files. *)
Definition makeCalibration (n_samples : Z) (bgOpen : bool) (bgVals : list (option R))
    (phOpen : bool) (phVals : list (option phaseCalibUnit)) : Res Calibration :=
  if (n_samples <? 0)%Z then Raise else
  let n := Z.to_nat n_samples in
  Ok (mkCalib (readTextFileToArray bgOpen bgVals (repeat 0 n))
              (readTextFileToArray phOpen phVals (repeat (mkUnit 0 0 0) n))).

(** [getHamming<T>(n)] *)
Definition getHamming (n : nat) : list R :=
  map (fun i => 0.54 - 0.46 * cos (2 * 3.1415926535897932384626 * INR i / INR n))
    (seq 0 n).

(** Modelled from the spec: the forward transform of [fftw::EngineR2C1D]
    (fftw.hpp is not part of the sources), "a real-to-complex FFT of length
    ALineSize, producing a complex spectrum of length ALineSize/2+1"; the
    unnormalised forward DFT, a pair (real part, imaginary part) per bin. *)
Definition dft_r2c (x : list R) : list (R * R) :=
  let n := length x in
  map (fun k =>
         (fold_right Rplus 0
            (map (fun j => nth j x 0 * cos (2 * PI * INR k * INR j / INR n))
               (seq 0 n)),
          - fold_right Rplus 0
              (map (fun j => nth j x 0 * sin (2 * PI * INR k * INR j / INR n))
                 (seq 0 n))))
    (seq 0 (n / 2 + 1)).

(** A value of the floating type [T] as IEEE arithmetic computes it: a
    finite value (modelled by [R], as everywhere in this file), an infinity
    or NaN.  Only [logCompress] produces the non-finite ones: [log10(0)] is
    [-inf], and [0 * -inf] is NaN. *)
Inductive fl := Fin (r : R) | PInf | NInf | NaN.

Definition fneg (a : fl) : fl :=
  match a with Fin x => Fin (- x) | PInf => NInf | NInf => PInf | NaN => NaN end.

(** IEEE [+] *)
Definition fadd (a b : fl) : fl :=
  match a, b with
  | Fin x, Fin y => Fin (x + y)
  | NaN, _ | _, NaN => NaN
  | PInf, NInf | NInf, PInf => NaN
  | PInf, _ | _, PInf => PInf
  | NInf, _ | _, NInf => NInf
  end.

(** IEEE [*]: an infinity times zero is NaN *)
Definition fmul (a b : fl) : fl :=
  match a, b with
  | Fin x, Fin y => Fin (x * y)
  | NaN, _ | _, NaN => NaN
  | Fin x, i | i, Fin x =>
      if Rlt_dec 0 x then i else if Rlt_dec x 0 then fneg i else NaN
  | PInf, PInf | NInf, NInf => PInf
  | _, _ => NInf
  end.

(** IEEE [<]: false as soon as one side is NaN *)
Definition flt (a b : fl) : bool :=
  match a, b with
  | NaN, _ | _, NaN => false
  | Fin x, Fin y => if Rlt_dec x y then true else false
  | PInf, _ | _, NInf => false
  | _, _ => true
  end.

(** [log10]: [-inf] at 0, NaN below *)
Definition log10 (x : R) : fl :=
  if Rlt_dec 0 x then Fin (ln x / ln 10)
  else if Rlt_dec x 0 then NaN else NInf.

(** [val < 0 ? 0 : val > 255 ? 255 : val]; a NaN passes through *)
Definition clampScore (v : fl) : fl :=
  if flt v (Fin 0) then Fin 0 else if flt (Fin 255) v then Fin 255 else v.

(** [T val = ro * ro + io * io; val = contrast * (10 * log10(val) + brightness);] *)
Definition score (contrast brightness : R) (c : R * R) : fl :=
  let ro := fst c in
  let io := snd c in
  let val := ro * ro + io * io in
  fmul (Fin contrast) (fadd (fmul (Fin 10) (log10 val)) (Fin brightness)).

(** [logCompress<T, Tout>]: [cast] is [static_cast<Tout>], [None] when the
    conversion is undefined. *)
Fixpoint logCompressLoop {Tout} (cast : fl -> option Tout) (out : list Tout)
    (cx : list (R * R)) (contrast brightness : R) (is : list nat)
    : option (list Tout) :=
  match is with
  | [] => Some out
  | i :: is' =>
      match at_ cx i with
      | Some c =>
          match cast (clampScore (score contrast brightness c)) with
          | Some o => logCompressLoop cast (set_nth out i o) cx contrast brightness is'
          | None => None
          end
      | None => None
      end
  end.

Definition logCompress {Tout} (cast : fl -> option Tout) (out : list Tout)
    (imageDepth : nat) (cx : list (R * R)) (contrast brightness : R)
    : option (list Tout) :=
  logCompressLoop cast out cx contrast brightness (seq 0 imageDepth).



(** [static_cast<T>] of a [T] *)
Definition castT (v : fl) : option fl := Some v.

(** 1. background subtraction: [alineBuf[i] = fringe[offset + i] - background[i]] *)
Definition subtractBackground (calib : Calibration) (fringe : list Z)
    (ALineSize offset : nat) : option (list R) :=
  mapM (fun i =>
          match at_ fringe (offset + i), at_ (background calib) i with
          | Some f, Some b => Some (IZR f - b)
          | _, _ => None
          end)
    (seq 0 ALineSize).

(** 2. one step of the phase-calibration interpolation, output sample [i]:
    [idx = phaseCalib[i].idx; unit = phaseCalib[idx];
     alineBuf[idx] * unit.l_coeff + alineBuf[idx + 1] * unit.r_coeff] *)
Definition interpAt (calib : Calibration) (aline : list R) (i : nat) : option R :=
  match at_ (phaseCalib calib) i with
  | None => None
  | Some u =>
      let k := idx u in
      match at_ (phaseCalib calib) k, at_ aline k, at_ aline (S k) with
      | Some unit, Some a0, Some a1 => Some (a0 * l_coeff unit + a1 * r_coeff unit)
      | _, _, _ => None
      end
  end.

Fixpoint linearizeLoop (calib : Calibration) (aline : list R) (is : list nat)
    (lin : list R) : option (list R) :=
  match is with
  | [] => Some lin
  | i :: is' =>
      match interpAt calib aline i with
      | Some v => linearizeLoop calib aline is' (set_nth lin i v)
      | None => None
      end
  end.

(** [for (int i = 0; i < ALineSize - 1; ++i) linearKFringe[i] = ...] on the
    buffer [lin] left by the previous A-line of the same stripe *)
Definition linearize (calib : Calibration) (aline : list R) (ALineSize : nat)
    (lin : list R) : option (list R) :=
  linearizeLoop calib aline (seq 0 (ALineSize - 1)) lin.

(** 3. window: [fftBuf.in[i] = win[i] * linearKFringe[i]] *)
Definition windowed (win lin : list R) (ALineSize : nat) : list R :=
  map (fun i => nth i win 0 * nth i lin 0) (seq 0 ALineSize).

(** 4. the A-lines of one stripe of [cv::parallel_for_]. *)
Section Stripe.

Variable calib : Calibration.
Variable fringe : list Z.
Variables ALineSize imageDepth : nat.
Variables contrast brightness : R.

Definition win : list R := getHamming ALineSize.

(** A-line [j]; [bufs] are [alineBuf] and [linearKFringe] as the previous
    A-line of the stripe left them.  The FFT output is log-compressed into
    row [j] of [mat] with [Tout = T], so the cast is the identity; the row
    starts uninitialised and is overwritten on [0, imageDepth). *)
Definition processLine (j : nat) (bufs : list R * list R)
    : option (list R * list R * list fl) :=
  match subtractBackground calib fringe ALineSize (j * ALineSize) with
  | None => None
  | Some aline =>
      match linearize calib aline ALineSize (snd bufs) with
      | None => None
      | Some lin =>
          let cx := dft_r2c (windowed win lin ALineSize) in
          match logCompress castT (repeat (Fin 0) imageDepth) imageDepth cx
                  contrast brightness with
          | None => None
          | Some row => Some (aline, lin, row)
          end
      end
  end.

Fixpoint stripeLoop (js : list nat) (bufs : list R * list R)
    : option (list (nat * list fl)) :=
  match js with
  | [] => Some []
  | j :: js' =>
      match processLine j bufs with
      | None => None
      | Some (aline, lin, row) =>
          match stripeLoop js' (aline, lin) with
          | None => None
          | Some ws => Some ((j, row) :: ws)
          end
      end
  end.

(** the body given to [cv::parallel_for_] for [range]: its buffers are
    value-initialised vectors of [ALineSize] zeros *)
Definition processStripe (range : nat * nat) : option (list (nat * list fl)) :=
  stripeLoop (seq (fst range) (snd range - fst range))
    (repeat 0 ALineSize, repeat 0 ALineSize).

Definition writeRows (m : list (list fl)) (ws : list (nat * list fl)) : list (list fl) :=
  fold_left (fun m w => set_nth m (fst w) (snd w)) ws m.

(** the rows of [cv::Mat_<T> mat(nLines, imageDepth)] after the parallel
    loop, the stripes being run in the order given *)
Definition assemble (stripes : list (nat * nat)) (nLines : nat)
    : option (list (list fl)) :=
  match mapM processStripe stripes with
  | None => None
  | Some wss => Some (writeRows (repeat (repeat (Fin 0) imageDepth) nLines) (concat wss))
  end.

End Stripe.

(** a split of [0, nLines) that [cv::parallel_for_] may choose *)
Definition validStripes (stripes : list (nat * nat)) (nLines : nat) : Prop :=
  (forall r, In r stripes -> (fst r <= snd r <= nLines)%nat) /\
  (forall j, (j < nLines)%nat -> exists r, In r stripes /\ (fst r <= j < snd r)%nat).

(** a decision procedure for [validStripes] *)
Definition validStripesb (stripes : list (nat * nat)) (nLines : nat) : bool :=
  forallb (fun r => Nat.leb (fst r) (snd r) && Nat.leb (snd r) nLines) stripes &&
  forallb (fun j => existsb (fun r => Nat.leb (fst r) j && Nat.ltb j (snd r)) stripes)
    (seq 0 nLines).

(** [mat = mat.t()]: the transpose of an empty matrix is released *)
Definition transpose (m : Mat fl) : Mat fl :=
  if Nat.eqb (rows m * cols m) 0 then emptyMat
  else mkMat (cols m) (rows m)
         (map (fun c => map (fun r => nth c (nth r (data m) []) (Fin 0)) (seq 0 (rows m)))
            (seq 0 (cols m))).

(** [mat(cv::Rect(x, 0, w, mat.rows))]; OpenCV raises on a rectangle
    outside the matrix *)
Definition colRange {E} (m : Mat E) (x w : Z) : Res (Mat E) :=
  if ((0 <=? x) && (0 <=? w) && (x + w <=? Z.of_nat (cols m)))%Z then
    Ok (mkMat (rows m) (Z.to_nat w)
          (map (fun row => firstn (Z.to_nat w) (skipn (Z.to_nat x) row)) (data m)))
  else Raise.

(** [std::round]: half away from zero *)
Definition std_round (x : R) : Z :=
  if Rle_dec 0 x then Int_part (x + / 2) else (- Int_part (- x + / 2))%Z.

(** [cvRound]: half to even *)
Definition roundHalfEven (x : R) : Z :=
  let f := Int_part x in
  let d := x - IZR f in
  if Rlt_dec d (/ 2) then f
  else if Rlt_dec (/ 2) d then (f + 1)%Z
  else if Z.even f then f else (f + 1)%Z.

(** [saturate_cast<uint8_t>(float)], that is [saturate_cast<uint8_t>(cvRound(x))];
    on the x86-64 target of the acquisition code (Windows), [cvRound] of a
    NaN or an infinity is the SSE2 conversion's [INT_MIN], which saturates
    to 0 *)
Definition saturate_u8 (v : fl) : Z :=
  match v with
  | Fin x => Z.max 0 (Z.min 255 (roundHalfEven x))
  | _ => 0
  end.

(** the [cv::Mat_<uint8_t>] built from the returned [cv::Mat_<T>] *)
Definition convertU8 (m : Mat fl) : Mat Z :=
  mkMat (rows m) (cols m) (map (map saturate_u8) (data m)).

(** The OpenCV and repository routines the engine calls and that are not
    part of the sources: [cvMod::phaseCorrelate] (its [x] component) and
    [cv::resize] (source, width, height); the results below hold for all of
    them. *)
Section Engine.

Variable phaseCorrelate : Mat fl -> Mat fl -> fl.
Variable resize : Mat fl -> nat -> nat -> Res (Mat fl).

(** [int] from [std::round] of a [double]: undefined when the rounded
    value is not finite or out of range *)
Definition roundToInt (x : fl) : Res Z :=
  match x with
  | Fin r => toInt (std_round r)
  | _ => UB
  end.

(** [getDistortionOffset] *)
Definition getDistortionOffset (mat : Mat fl) (theoryWidth corrWidth : Z) : Res Z :=
  firstStrip <- colRange mat 0 corrWidth ;;
  lastStrip <- colRange mat theoryWidth corrWidth ;;
  roundToInt (phaseCorrelate firstStrip lastStrip).

(** "Distortion correction and resize to theoretical aline number" *)
Definition distortionCorrect (nLines : nat) (mat : Mat fl) : Res (Mat fl) :=
  if Nat.eqb nLines 2500 then Ok mat
  else if Nat.eqb nLines 2200 then
    let theoreticalALines := 2000%nat in
    distOffset <- getDistortionOffset mat (Z.of_nat theoreticalALines)
                    (Z.of_nat (nLines - theoreticalALines)) ;;
    src <- colRange mat 0 (Z.of_nat theoreticalALines + distOffset) ;;
    resize src theoreticalALines (rows mat)
  else Ok mat.

(** "Align Bscans": [prevMat] is the function-local [static cv::Mat_<T>] *)
Definition alignStep (prevMat mat : Mat fl) : Res (Mat fl) :=
  if Nat.eqb (cols prevMat) (cols mat) && Nat.eqb (rows prevMat) (rows mat) then
    alignOffset <- roundToInt (phaseCorrelate prevMat mat) ;;
    circshift 1 mat alignOffset
  else Ok mat.

(** [reconBscan] up to and including the distortion correction; [ndebug]
    tells whether [assert] is compiled out *)
Definition perFrame (ndebug : bool) (stripes : list (nat * nat)) (calib : Calibration)
    (fringe : list Z) (ALineSize imageDepth : nat) (params : ScanConversionParams)
    : Res (Mat fl) :=
  if Nat.eqb ALineSize 0 then UB
  else if negb ndebug && negb (Nat.eqb (length fringe mod ALineSize) 0) then Abort
  else
    let nLines := (length fringe / ALineSize)%nat in
    rowsData <- of_opt (assemble calib fringe ALineSize imageDepth (contrast params)
                          (brightness params) stripes nLines) ;;
    distortionCorrect nLines (transpose (mkMat nLines imageDepth rowsData)).

(** [reconBscan]: the returned image and the new value of [prevMat] *)
Definition reconBscan (ndebug : bool) (stripes : list (nat * nat)) (calib : Calibration)
    (fringe : list Z) (ALineSize imageDepth : nat) (params : ScanConversionParams)
    (prevMat : Mat fl) : Res (Mat Z * Mat fl) :=
  mat <- perFrame ndebug stripes calib fringe ALineSize imageDepth params ;;
  aligned <- alignStep prevMat mat ;;
  Ok (convertU8 aligned, aligned).

End Engine.

End Recon.

(** ** Acquisition loop (DAQ.cpp) *)
Module DAQ.

(** the [RETURN_CODE] values [DAQ::acquire] distinguishes; [ApiOther c] is
    any other code, by its numeric value *)
Inductive RETURN_CODE :=
| ApiSuccess
| ApiWaitTimeout
| ApiBufferOverflow
| ApiBufferNotReady
| ApiOther (code : N).

Definition isSuccess (r : RETURN_CODE) : bool :=
  match r with ApiSuccess => true | _ => false end.

(** decimal rendering of an unsigned value, as [fmt::format("{}")] does *)
Fixpoint decimalAux (fuel : nat) (n : N) (acc : string) : string :=
  match fuel with
  | O => acc
  | S f =>
      let acc' := String (ascii_of_N (48 + N.modulo n 10)) acc in
      if (N.div n 10 =? 0)%N then acc' else decimalAux f (N.div n 10) acc'
  end.

Definition decimal (n : N) : string := decimalAux 20 n EmptyString.

Definition msgTimeout : string :=
  "DAQ: AlazarWaitAsyncBufferComplete timeout. Please make sure the trigger is connected.".
Definition msgOverflow : string :=
  "DAQ: AlazarWaitAsyncBufferComplete buffer overflow. The data acquisition rate is higher than the transfer rate from on-board memory to host memory.".
Definition msgNotReady : string :=
  "DAQ: AlazarWaitAsyncBufferComplete (573) buffer not ready. The buffer passed as argument is not ready to be called with this API. ".
Definition msgUnknown (code : N) : string :=
  "DAQ: AlazarWaitAsyncBufferComplete returned unknown code " ++ decimal code.

(** [m_errMsg] set by the [switch] on the result of the wait *)
Definition waitErrMsg (r : RETURN_CODE) : string :=
  match r with
  | ApiSuccess => EmptyString
  | ApiWaitTimeout => msgTimeout
  | ApiBufferOverflow => msgOverflow
  | ApiBufferNotReady => msgNotReady
  | ApiOther c => msgUnknown c
  end.

(** [qCritical("Error: write buffer %u failed -- %u", buffersCompleted,
    GetLastError())] of the [catch] clause of the save *)
Definition msgWriteFailed (n : nat) (lastError : N) : string :=
  "Error: write buffer " ++ decimal (N.of_nat n) ++ " failed -- " ++ decimal lastError.

Definition newline : string := String (ascii_of_nat 10) EmptyString.

(** [ALAZAR_CALL(AlazarPostAsyncBuffer(board, buf.data(), bytesPerBuffer))]
    on failure: [qCritical("Error: %s failed -- %s\n", #fn, AlazarErrorToText(ret))] *)
Definition msgRepostFailed (errorText : string) : string :=
  "Error: AlazarPostAsyncBuffer(board, buf.data(), bytesPerBuffer) failed -- "
    ++ errorText ++ newline.

(** The board as the loop sees it: the result of each SDK call, by
    iteration [k] (which is also [buffersCompleted] when the iteration
    starts), the contents of the [k]-th completed buffer, the value of
    [shouldStopAcquiring] (set by another thread) read before iteration [k],
    and the SDK's [AlazarErrorToText]. *)
Record Board := mkBoard {
  beforeAsyncRead : RETURN_CODE;
  postBuffer : nat -> RETURN_CODE;
  startCapture : RETURN_CODE;
  waitComplete : nat -> RETURN_CODE;
  repost : nat -> RETURN_CODE;
  bufferData : nat -> list Z;
  stopRequested : nat -> bool;
  errorText : RETURN_CODE -> string }.

(** [m_fs]: whether it is open, whether its exception mask makes a failed
    [write] throw [std::ios_base::failure] (the [std::fstream] opened by
    [prepareAcquisition] keeps the default, empty mask), whether the
    device accepts the write of the [k]-th completed buffer, and
    [GetLastError()] after that write. *)
Record Sink := mkSink {
  isOpen : bool;
  throwsOnFailure : bool;
  writeSucceeds : nat -> bool;
  lastError : nat -> N }.

(** [DAQ::initHardware]: [AlazarGetBoardBySystemID(1, 1)], then eight
    configuration calls in this order: [AlazarSetCaptureClock],
    [AlazarInputControl] of channel A, of channel B,
    [AlazarSetExternalTrigger], [AlazarSetTriggerOperation],
    [AlazarSetTriggerDelay], [AlazarSetTriggerTimeOut],
    [AlazarConfigureAuxIO]; [initCall i] is the result of call [i] *)
Record InitBoard := mkInitBoard {
  boardFound : bool;            (* [board != nullptr] *)
  initCall : nat -> RETURN_CODE }.

Definition msgBoardInit : string := "Failed to initialize Alazar board.".

(** [ALAZAR_CALL] of calls [i .. i+n-1], each but the last followed by
    [RETURN_BOOL_IF_FAIL()], the last one's [success] being returned: the
    result and the calls made *)
Fixpoint configCalls (call : nat -> RETURN_CODE) (i n : nat) : bool * list nat :=
  match n with
  | O => (true, [])
  | S n' =>
      if isSuccess (call i) then
        let (b, made) := configCalls call (S i) n' in (b, i :: made)
      else (false, [i])
  end.

(** the result, the calls made and [m_errMsg] *)
Definition initHardware (hw : InitBoard) (err0 : string) : bool * list nat * string :=
  let err := if boardFound hw then err0 else msgBoardInit in
  let (b, made) := configCalls (initCall hw) 0 8 in (b, made, err).

(** the observable state of a run *)
Record AcqState := mkAcq {
  buffersCompleted : nat;
  success : bool;
  errMsg : string;
  ring : list (nat * list Z);   (* records given to [produce_nolock]: [i], [fringe] *)
  saved : list nat;             (* completed buffers written to [m_fs] *)
  reposted : list nat;          (* completed buffers posted back to the board *)
  waits : nat;                  (* calls to [AlazarWaitAsyncBufferComplete] *)
  critical : list string;       (* [qCritical] messages *)
  fsGood : bool }.              (* [m_fs.good()] *)

Definition setSuccess (b : bool) (st : AcqState) : AcqState :=
  mkAcq (buffersCompleted st) b (errMsg st) (ring st) (saved st) (reposted st)
    (waits st) (critical st) (fsGood st).

Definition logCritical (m : string) (st : AcqState) : AcqState :=
  mkAcq (buffersCompleted st) (success st) (errMsg st) (ring st) (saved st)
    (reposted st) (waits st) (critical st ++ [m]) (fsGood st).

(** [try { m_fs.write(...) } catch (std::ios_base::failure &e) { qCritical; success = false; }]
    for the [k]-th completed buffer; a stream that is not good writes
    nothing and only sets [failbit]. *)
Definition saveBuffer (snk : Sink) (k : nat) (st : AcqState) : AcqState :=
  let caught st := setSuccess false (logCritical (msgWriteFailed (S k) (lastError snk k)) st) in
  if fsGood st && writeSucceeds snk k then
    mkAcq (buffersCompleted st) (success st) (errMsg st) (ring st) (saved st ++ [k])
      (reposted st) (waits st) (critical st) (fsGood st)
  else
    let st' := mkAcq (buffersCompleted st) (success st) (errMsg st) (ring st) (saved st)
                 (reposted st) (waits st) (critical st) false in
    if throwsOnFailure snk then caught st' else st'.

(** one iteration of the [while] loop, up to the [if (!success) break;] *)
Definition iteration (hw : Board) (snk : Sink) (st : AcqState) : AcqState :=
  let k := buffersCompleted st in
  match waitComplete hw k with
  | ApiSuccess =>
      let st1 := mkAcq (S k) true (errMsg st) (ring st ++ [(k, bufferData hw k)])
                   (saved st) (reposted st) (S (waits st)) (critical st) (fsGood st) in
      if isOpen snk then saveBuffer snk k st1 else st1
  | r =>
      mkAcq k false (waitErrMsg r) (ring st) (saved st) (reposted st) (S (waits st))
        (critical st ++ [waitErrMsg r]) (fsGood st)
  end.

(** [ALAZAR_CALL(AlazarPostAsyncBuffer(...))] at the end of iteration [k] *)
Definition repostStep (hw : Board) (k : nat) (st : AcqState) : AcqState :=
  let r := repost hw k in
  let st' := mkAcq (buffersCompleted st) (isSuccess r) (errMsg st) (ring st) (saved st)
               (reposted st ++ [k]) (waits st) (critical st) (fsGood st) in
  if isSuccess r then st' else logCritical (msgRepostFailed (errorText hw r)) st'.

(** [while (success && !shouldStopAcquiring && buffersCompleted < buffersToAcquire)];
    every iteration that goes on increments [buffersCompleted], so
    [buffersToAcquire] rounds of fuel are enough. *)
Fixpoint acqLoop (hw : Board) (snk : Sink) (buffersToAcquire : nat) (fuel : nat)
    (st : AcqState) : AcqState :=
  match fuel with
  | O => st
  | S f =>
      if success st && negb (stopRequested hw (buffersCompleted st))
         && Nat.ltb (buffersCompleted st) buffersToAcquire then
        let k := buffersCompleted st in
        let st1 := iteration hw snk st in
        if negb (success st1) then st1
        else acqLoop hw snk buffersToAcquire f (repostStep hw k st1)
      else st
  end.

(** [DAQ::acquire] with a pool of [poolSize] buffers; [err0] is [m_errMsg]
    on entry.  [critical] records the messages of the loop: the
    [qCritical] of a failed setup call and of the deferred
    [AlazarAbortAsyncRead] are not modelled (the abort runs after the
    result is formed and does not change it). *)
Definition acquire (hw : Board) (snk : Sink) (poolSize buffersToAcquire : nat)
    (err0 : string) : bool * AcqState :=
  let st0 := mkAcq 0 true err0 [] [] [] 0 [] true in
  if negb (isSuccess (beforeAsyncRead hw)) then (false, st0)
  else if negb (forallb (fun b => isSuccess (postBuffer hw b)) (seq 0 poolSize)) then (false, st0)
  else if negb (isSuccess (startCapture hw)) then (false, st0)
  else
    let st := acqLoop hw snk buffersToAcquire buffersToAcquire st0 in
    (success st, st).

End DAQ.

(** * Examples used by the witnesses and counterexamples *)
Module Examples.
Import Recon DAQ.
Local Open Scope R_scope.

(** a one-pixel [cv::Mat_] *)
Definition m1 : Mat nat := mkMat 1 1 [[7%nat]].
(** a one-row, three-column [cv::Mat_<int>] *)
Definition rowZ3 : Mat Z := mkMat 1 3 [[10; 20; 30]%Z].

(** a three-entry table whose entry 0 points at source index 1 *)
Definition calibC1 : Calibration :=
  mkCalib [0; 0; 0] [mkUnit 1 1 0; mkUnit 1 0 1; mkUnit 0 0 0].
Definition alineC1 : list R := [0; 5; 7].

(** a two-sample calibration: background zero, output sample 0 read from
    source sample 0 with weight 25/2 *)
Definition calibEx : Calibration :=
  mkCalib [0; 0] [mkUnit 0 (25 / 2) 0; mkUnit 0 0 0].
Definition paramsEx : ScanConversionParams := mkParams 1 (/ 4).

(** a four-sample fringe: two A-lines of two samples *)
Definition fringeEx4 : list Z := [1; 0; 3; 2]%Z.
(** stand-ins for [cv::phaseCorrelate] and [cv::resize] *)
Definition pcZero (a b : Mat fl) : fl := Fin 0.
Definition pcOne (a b : Mat fl) : fl := Fin 1.
Definition resizeKeep (m : Mat fl) (c r : nat) : Res (Mat fl) := Ok m.

(** [AlazarErrorToText] of code 513, [ApiFailed], the only failure the
    boards below return *)
Definition alazarText (r : RETURN_CODE) : string := "ApiFailed".

(** a board whose every call succeeds; buffer [k] holds the one sample [k] *)
Definition boardOK : Board :=
  mkBoard ApiSuccess (fun _ => ApiSuccess) ApiSuccess (fun _ => ApiSuccess)
    (fun _ => ApiSuccess) (fun k => [Z.of_nat k]) (fun _ => false) alazarText.
(** the same board, whose wait for buffer 1 times out *)
Definition boardTimeoutAt1 : Board :=
  mkBoard ApiSuccess (fun _ => ApiSuccess) ApiSuccess
    (fun k => if Nat.eqb k 1 then ApiWaitTimeout else ApiSuccess)
    (fun _ => ApiSuccess) (fun k => [Z.of_nat k]) (fun _ => false) alazarText.
(** the same board, whose repost of buffer 1 fails *)
Definition boardRepostFailAt1 : Board :=
  mkBoard ApiSuccess (fun _ => ApiSuccess) ApiSuccess (fun _ => ApiSuccess)
    (fun k => if Nat.eqb k 1 then ApiOther 513 else ApiSuccess)
    (fun k => [Z.of_nat k]) (fun _ => false) alazarText.
(** the same board, whose [AlazarStartCapture] fails *)
Definition boardNoCapture : Board :=
  mkBoard ApiSuccess (fun _ => ApiSuccess) (ApiOther 513) (fun _ => ApiSuccess)
    (fun _ => ApiSuccess) (fun k => [Z.of_nat k]) (fun _ => false) alazarText.
(** an open file that takes every write *)
Definition sinkOK : Sink := mkSink true false (fun _ => true) (fun _ => 0%N).
(** an open file, with the default exception mask, whose first write fails
    with [ERROR_DISK_FULL] (112) *)
Definition sinkFail0 : Sink :=
  mkSink true false (fun k => negb (Nat.eqb k 0)) (fun _ => 112%N).
(** the same file with [failbit | badbit] in its exception mask *)
Definition sinkFail0Throw : Sink :=
  mkSink true true (fun k => negb (Nat.eqb k 0)) (fun _ => 112%N).

End Examples.

(** * Properties *)

(** ** Lists *)

Lemma length_set_nth : forall A (l : list A) i x, length (set_nth l i x) = length l.
Proof. induction l; intros [|i] x; simpl; auto. Qed.

Lemma nth_error_set_nth : forall A (l : list A) i x j,
  nth_error (set_nth l i x) j =
  if Nat.eqb i j then (if Nat.ltb i (length l) then Some x else None) else nth_error l j.
Proof.
  induction l as [|h t IH]; intros i x j.
  - simpl. destruct (Nat.eqb i j), j; reflexivity.
  - destruct i, j; simpl; auto.
Qed.

Lemma nth_set_nth_other : forall A (l : list A) i x j d,
  i <> j -> nth j (set_nth l i x) d = nth j l d.
Proof.
  induction l as [|h t IH]; intros [|i] x [|j] d Hij; simpl; auto; try lia.
Qed.

Lemma nth_set_nth_same : forall A (l : list A) i x d,
  (i < length l)%nat -> nth i (set_nth l i x) d = x.
Proof.
  induction l as [|h t IH]; intros [|i] x d Hi; simpl in *; try lia; auto.
  apply IH; lia.
Qed.

(** writing [f i] at every index of [seq s n] *)
Lemma nth_error_fold_set_seq : forall A (f : nat -> A) n s (l : list A) j,
  nth_error (fold_left (fun o i => set_nth o i (f i)) (seq s n) l) j =
  if Nat.leb s j && Nat.ltb j (s + n) && Nat.ltb j (length l) then Some (f j)
  else nth_error l j.
Proof.
  induction n as [|n IH]; intros s l j.
  - simpl. replace (s + 0)%nat with s by lia.
    destruct (Nat.leb s j) eqn:E1; destruct (Nat.ltb j s) eqn:E2; simpl; auto.
    apply Nat.leb_le in E1; apply Nat.ltb_lt in E2; lia.
  - simpl. rewrite IH, length_set_nth, nth_error_set_nth.
    destruct (Nat.eqb s j) eqn:Esj.
    + apply Nat.eqb_eq in Esj; subst.
      rewrite Nat.leb_refl.
      destruct (Nat.leb (S j) j) eqn:E; [apply Nat.leb_le in E; lia|].
      simpl. replace (Nat.ltb j (j + S n)) with true
        by (symmetry; apply Nat.ltb_lt; lia).
      destruct (Nat.ltb j (length l)) eqn:El; [reflexivity|].
      symmetry. apply nth_error_None. apply Nat.ltb_ge in El. lia.
    + apply Nat.eqb_neq in Esj.
      destruct (Nat.leb s j) eqn:E1.
      * apply Nat.leb_le in E1.
        replace (Nat.leb (S s) j) with true by (symmetry; apply Nat.leb_le; lia).
        replace (S s + n)%nat with (s + S n)%nat by lia. reflexivity.
      * apply Nat.leb_gt in E1.
        replace (Nat.leb (S s) j) with false by (symmetry; apply Nat.leb_gt; lia).
        reflexivity.
Qed.

Lemma nth_fold_set_seq : forall A (f : nat -> A) n s (l : list A) j d,
  (s <= j < s + n)%nat -> (j < length l)%nat ->
  nth j (fold_left (fun o i => set_nth o i (f i)) (seq s n) l) d = f j.
Proof.
  intros A f n s l j d Hj Hl.
  assert (H := nth_error_fold_set_seq A f n s l j).
  replace (Nat.leb s j && Nat.ltb j (s + n) && Nat.ltb j (length l)) with true in H.
  - apply nth_error_nth with (d := d) in H. exact H.
  - symmetry. apply andb_true_intro; split; [apply andb_true_intro; split|];
      [apply Nat.leb_le | apply Nat.ltb_lt | apply Nat.ltb_lt]; lia.
Qed.

Lemma length_fold_set : forall A (f : nat -> A) is (l : list A),
  length (fold_left (fun o i => set_nth o i (f i)) is l) = length l.
Proof.
  induction is; intros l; simpl; auto. rewrite IHis. apply length_set_nth.
Qed.

Lemma mapM_None : forall A B (f : A -> option B) l,
  mapM f l = None <-> exists x, In x l /\ f x = None.
Proof.
  induction l as [|a t IH]; simpl.
  - split; [discriminate | intros (x & [] & _)].
  - destruct (f a) eqn:Ea.
    + destruct (mapM f t) eqn:Et.
      * split; [discriminate|].
        intros (x & [<-|Hx] & Hfx); [congruence|].
        assert (Hn : Some l = None) by (apply IH; eauto). discriminate.
      * split; auto. intros _. destruct (proj1 IH eq_refl) as (x & Hx & Hfx). eauto.
    + split; auto. intros _. eauto.
Qed.

Lemma mapM_Some : forall A B (f : A -> option B) l bs,
  mapM f l = Some bs -> length bs = length l /\
  forall i d e, (i < length l)%nat -> f (nth i l d) = Some (nth i bs e).
Proof.
  induction l as [|a t IH]; simpl; intros bs H.
  - inversion H; subst. split; auto. intros; simpl in *; lia.
  - destruct (f a) eqn:Ea; [|discriminate].
    destruct (mapM f t) eqn:Et; [|discriminate].
    inversion H; subst. destruct (IH l eq_refl) as [Hlen Hn].
    split; [simpl; auto|].
    intros [|i] d e Hi; simpl; auto. apply Hn. simpl in Hi; lia.
Qed.

Lemma mapM_map_Some : forall A B (f : A -> option B) (g : A -> B) l,
  (forall x, In x l -> f x = Some (g x)) -> mapM f l = Some (map g l).
Proof.
  induction l as [|a t IH]; simpl; intros H; auto.
  rewrite (H a (or_introl eq_refl)), IH; auto.
Qed.

(** ** C10: [circshift] *)

Lemma circshift_normalised : forall E (m : Mat E) s,
  (0 < Z.of_nat (cols m))%Z -> (2 * Z.of_nat (cols m) <= INT_MAX)%Z ->
  (- Z.of_nat (cols m) <= s)%Z -> (s + Z.of_nat (cols m) <= INT_MAX)%Z ->
  circshift 1 m s = circshift 1 m (s mod Z.of_nat (cols m)).
Proof.
  intros E m s Hc H2c Hlo Hhi. unfold circshift, intAdd, intMul, toInt.
  set (c := Z.of_nat (cols m)) in *.
  assert (Hm := Z.mod_pos_bound s c Hc).
  replace ((INT_MIN <=? s + c) && (s + c <=? INT_MAX))%Z with true
    by (symmetry; unfold INT_MIN in *; apply andb_true_intro; split; apply Z.leb_le; lia).
  replace ((INT_MIN <=? s mod c + c) && (s mod c + c <=? INT_MAX))%Z with true
    by (symmetry; unfold INT_MIN in *; apply andb_true_intro; split; apply Z.leb_le; lia).
  simpl. replace (c =? 0)%Z with false by (symmetry; apply Z.eqb_neq; lia).
  f_equal. rewrite !Z.rem_mod_nonneg by lia.
  rewrite Z.add_mod, Z.mod_same, Z.add_0_r, Z.mod_mod by lia. f_equal.
  rewrite Z.add_mod, Z.mod_mod, Z.mod_same, Z.add_0_r, Z.mod_mod by lia.
  reflexivity.
Qed.

Lemma circshift_zero_noop : forall E (m : Mat E),
  (0 < Z.of_nat (cols m))%Z -> (Z.of_nat (cols m) <= INT_MAX)%Z ->
  circshift 1 m 0 = Ok m.
Proof.
  intros E m Hc Hmax. unfold circshift, intAdd, intMul, toInt.
  replace ((INT_MIN <=? 0 + Z.of_nat (cols m)) && (0 + Z.of_nat (cols m) <=? INT_MAX))%Z
    with true by (symmetry; unfold INT_MIN; apply andb_true_intro; split; apply Z.leb_le; lia).
  simpl. replace (Z.of_nat (cols m) =? 0)%Z with false by (symmetry; apply Z.eqb_neq; lia).
  rewrite Z.mul_1_r.
  replace ((INT_MIN <=? Z.of_nat (cols m)) && (Z.of_nat (cols m) <=? INT_MAX))%Z
    with true by (symmetry; unfold INT_MIN; apply andb_true_intro; split; apply Z.leb_le; lia).
  simpl. rewrite Z.rem_same by lia. simpl.
  replace (0 <=? Z.of_nat (cols m))%Z with true by (symmetry; apply Z.leb_le; lia).
  simpl. destruct m as [r c d]. simpl. f_equal. f_equal.
  rewrite <- (map_id d) at 2. apply map_ext. intros row. unfold rotate. simpl.
  rewrite ?app_nil_r, ?firstn_O. simpl. apply firstn_skipn.
Qed.

(** C10: [circshift] normalises the shift with [(idx + mat.cols) % mat.cols]
    in [int]; at [idx = INT_MAX] the addition overflows (undefined
    behaviour) although the shift reduced modulo the width is a plain
    no-op. *)
Theorem circshift_int_max_overflows :
  circshift 1 Examples.m1 INT_MAX = UB /\
  circshift 1 Examples.m1 (INT_MAX mod Z.of_nat (cols Examples.m1)) = Ok Examples.m1.
Proof. split; vm_compute; reflexivity. Qed.

(** ** C3: [logCompress] *)
Section LogCompress.
Import Recon.
Local Open Scope R_scope.

(** The value the claim gives for a bin, read with IEEE arithmetic: for a
    bin of positive power, [contrast * (10*log10(re^2 + io^2) + brightness)]
    clamped to [0, 255]; for a zero bin [log10] is [-inf], so the score is
    [-inf] (clamped to 0) for a positive contrast, [+inf] (clamped to 255)
    for a negative one, and NaN ([0 * -inf]) for a zero contrast. *)
Definition clampR (v : R) : R :=
  if Rlt_dec v 0 then 0 else if Rlt_dec 255 v then 255 else v.

Definition log10R (x : R) : R := ln x / ln 10.

Definition compressedBin (contrast brightness : R) (c : R * R) : fl :=
  let v := fst c * fst c + snd c * snd c in
  if Rlt_dec 0 v then Fin (clampR (contrast * (10 * log10R v + brightness)))
  else if Rlt_dec 0 contrast then Fin 0
  else if Rlt_dec contrast 0 then Fin 255
  else NaN.

Lemma clampScore_score : forall contrast brightness c,
  clampScore (score contrast brightness c) = compressedBin contrast brightness c.
Proof.
  intros contrast brightness [ro io]. unfold score, compressedBin; cbn [fst snd].
  assert (Hv : 0 <= ro * ro + io * io) by nra.
  set (v := ro * ro + io * io) in *. unfold log10.
  destruct (Rlt_dec 0 v) as [Hp|Hp].
  - cbn [fmul fadd]. unfold clampScore, clampR, log10R; cbn [flt].
    set (x := contrast * (10 * (ln v / ln 10) + brightness)).
    destruct (Rlt_dec x 0); [reflexivity|].
    destruct (Rlt_dec 255 x); reflexivity.
  - destruct (Rlt_dec v 0) as [Hn|_]; [lra|].
    cbn [fmul]. destruct (Rlt_dec 0 10) as [_|H10]; [|lra]. cbn [fadd fmul].
    destruct (Rlt_dec 0 contrast); [reflexivity|].
    destruct (Rlt_dec contrast 0); reflexivity.
Qed.





Lemma clampR_range : forall x, 0 <= clampR x <= 255.
Proof.
  intros x. unfold clampR.
  destruct (Rlt_dec x 0); [lra|]. destruct (Rlt_dec 255 x); lra.
Qed.



End LogCompress.

(** ** C1, C2: the k-space linearisation *)
Section Linearize.
Import Recon.
Local Open Scope R_scope.

Lemma nth_of_nth_error : forall A (l1 l2 : list A) j d,
  nth_error l1 j = nth_error l2 j -> nth j l1 d = nth j l2 d.
Proof.
  intros A l1 l2 j d H.
  destruct (nth_error l1 j) eqn:E1.
  - rewrite (nth_error_nth l1 j d E1). symmetry. apply nth_error_nth. congruence.
  - apply nth_error_None in E1. symmetry in H. apply nth_error_None in H.
    rewrite !nth_overflow; auto.
Qed.

Lemma nth_fold_set_seq_above : forall A (f : nat -> A) n s (l : list A) j d,
  (s + n <= j)%nat ->
  nth j (fold_left (fun o i => set_nth o i (f i)) (seq s n) l) d = nth j l d.
Proof.
  intros. apply nth_of_nth_error. rewrite nth_error_fold_set_seq.
  replace (Nat.ltb j (s + n)) with false by (symmetry; apply Nat.ltb_ge; lia).
  rewrite andb_false_r. reflexivity.
Qed.

Lemma linearizeLoop_fold : forall calib aline (g : nat -> R) is lin,
  (forall i, In i is -> interpAt calib aline i = Some (g i)) ->
  linearizeLoop calib aline is lin = Some (fold_left (fun o i => set_nth o i (g i)) is lin).
Proof.
  intros calib aline g is. induction is as [|i is IH]; intros lin H; simpl; auto.
  rewrite (H i (or_introl eq_refl)). apply IH. intros k Hk. apply H. right; auto.
Qed.

(** the value the source computes for output sample [i] *)
Definition interpValue (calib : Calibration) (aline : list R) (i : nat) : R :=
  let k := idx (nth i (phaseCalib calib) (mkUnit 0 0 0)) in
  let unit := nth k (phaseCalib calib) (mkUnit 0 0 0) in
  nth k aline 0 * l_coeff unit + nth (S k) aline 0 * r_coeff unit.

Lemma interpAt_valid : forall calib aline N i,
  length (phaseCalib calib) = N -> length aline = N ->
  (forall u, In u (phaseCalib calib) -> (idx u < N - 1)%nat) ->
  (i < N)%nat ->
  interpAt calib aline i = Some (interpValue calib aline i).
Proof.
  intros calib aline N i Hlt Hla Hidx Hi. unfold interpAt, interpValue, at_.
  rewrite (nth_error_nth' _ (mkUnit 0 0 0)) by lia.
  set (k := idx (nth i (phaseCalib calib) (mkUnit 0 0 0))).
  assert (Hk : (k < N - 1)%nat) by (apply Hidx; apply nth_In; lia).
  rewrite (nth_error_nth' _ (mkUnit 0 0 0)) by lia.
  rewrite (nth_error_nth' aline 0) by lia.
  rewrite (nth_error_nth' aline 0) by lia.
  reflexivity.
Qed.

Lemma linearize_valid : forall calib aline N lin,
  length (phaseCalib calib) = N -> length aline = N ->
  (forall u, In u (phaseCalib calib) -> (idx u < N - 1)%nat) ->
  linearize calib aline N lin =
  Some (fold_left (fun o i => set_nth o i (interpValue calib aline i)) (seq 0 (N - 1)) lin).
Proof.
  intros calib aline N lin Hlt Hla Hidx. unfold linearize.
  apply linearizeLoop_fold. intros i Hi. apply in_seq in Hi.
  apply interpAt_valid with (N := N); auto; lia.
Qed.

(** C1 (as the code has it): output sample [i] takes its source index [k]
    from entry [i] of the table but its two weights from entry [k]. *)
Theorem linearize_weights_from_source_entry : forall calib aline N lin,
  length (phaseCalib calib) = N -> length aline = N -> length lin = N ->
  (forall u, In u (phaseCalib calib) -> (idx u < N - 1)%nat) ->
  exists lin', linearize calib aline N lin = Some lin' /\
    forall i, (i < N - 1)%nat ->
      let k := idx (nth i (phaseCalib calib) (mkUnit 0 0 0)) in
      let unit := nth k (phaseCalib calib) (mkUnit 0 0 0) in
      nth i lin' 0 = nth k aline 0 * l_coeff unit + nth (S k) aline 0 * r_coeff unit.
Proof.
  intros calib aline N lin Hlt Hla Hll Hidx.
  eexists; split; [apply linearize_valid; auto|].
  intros i Hi. simpl.
  rewrite (nth_fold_set_seq R (interpValue calib aline) (N - 1) 0 lin i 0) by lia.
  reflexivity.
Qed.

(** C2: with a table of [ALineSize] entries whose source indices are below
    [ALineSize - 1], every read of the fringe, of the background, of the
    table and of [alineBuf] made for A-line [j] is in range (a checked
    access out of range would make the result [None]); the buffer
    [linearKFringe] is written only below [ALineSize - 1], so its last
    sample keeps the zero of the value-initialised vector, A-line after
    A-line. *)
Theorem linearize_in_bounds_last_zero : forall calib fringe N j lin,
  (1 <= N)%nat -> length (background calib) = N -> length (phaseCalib calib) = N ->
  (forall u, In u (phaseCalib calib) -> (idx u < N - 1)%nat) ->
  (j < length fringe / N)%nat -> length lin = N -> nth (N - 1) lin 0 = 0 ->
  nth (N - 1) (repeat 0 N) 0 = 0 /\
  exists aline lin',
    subtractBackground calib fringe N (j * N) = Some aline /\ length aline = N /\
    linearize calib aline N lin = Some lin' /\ length lin' = N /\ nth (N - 1) lin' 0 = 0.
Proof.
  intros calib fringe N j lin HN Hbg Htab Hidx Hj Hll Hlast.
  split; [apply nth_repeat|].
  assert (Hfr : ((j + 1) * N <= length fringe)%nat).
  { pose proof (Nat.Div0.mul_div_le (length fringe) N) as Hd.
    assert (Hq : (j + 1 <= length fringe / N)%nat) by lia.
    apply Nat.mul_le_mono_r with (p := N) in Hq. nia. }
  set (aline := map (fun i => IZR (nth (j * N + i) fringe 0%Z) - nth i (background calib) 0)
                  (seq 0 N)).
  assert (Hsub : subtractBackground calib fringe N (j * N) = Some aline).
  { unfold subtractBackground, aline. apply mapM_map_Some.
    intros i Hi. apply in_seq in Hi. unfold at_.
    rewrite (nth_error_nth' fringe 0%Z) by nia.
    rewrite (nth_error_nth' (background calib) 0) by lia. reflexivity. }
  assert (Hla : length aline = N) by (unfold aline; rewrite length_map, length_seq; auto).
  exists aline.
  eexists; split; [exact Hsub|]; split; [exact Hla|].
  split; [apply linearize_valid; auto|].
  split; [rewrite length_fold_set; auto|].
  rewrite nth_fold_set_seq_above by lia. exact Hlast.
Qed.

End Linearize.

Ltac idx_bounds :=
  let u := fresh "u" in let Hu := fresh "Hu" in
  intros u Hu; simpl in Hu;
  repeat (destruct Hu as [Hu|Hu]; [subst u; simpl; lia|]); contradiction.

Lemma linearize_weights_from_source_entry_witness :
  exists lin', Recon.linearize Examples.calibC1 Examples.alineC1 3 (repeat 0%R 3) = Some lin' /\
    forall i, (i < 3 - 1)%nat ->
      let k := Recon.idx (nth i (Recon.phaseCalib Examples.calibC1) (Recon.mkUnit 0 0 0)) in
      let unit := nth k (Recon.phaseCalib Examples.calibC1) (Recon.mkUnit 0 0 0) in
      nth i lin' 0%R = (nth k Examples.alineC1 0 * Recon.l_coeff unit
                        + nth (S k) Examples.alineC1 0 * Recon.r_coeff unit)%R.
Proof.
  apply linearize_weights_from_source_entry; try reflexivity. idx_bounds.
Defined.

(** C1 as stated fails: for output sample 0 the table gives source index 1
    with weights (1, 0), but the code blends with the weights (0, 1) of
    entry 1, so it produces 7 where the claim gives 5. *)
Lemma linearize_weights_not_from_entry_i :
  exists lin', Recon.linearize Examples.calibC1 Examples.alineC1 3 (repeat 0%R 3) = Some lin' /\
    let u := nth 0 (Recon.phaseCalib Examples.calibC1) (Recon.mkUnit 0 0 0) in
    nth 0 lin' 0%R <> (nth (Recon.idx u) Examples.alineC1 0 * Recon.l_coeff u
                       + nth (S (Recon.idx u)) Examples.alineC1 0 * Recon.r_coeff u)%R.
Proof.
  eexists; split; [reflexivity|]. simpl. lra.
Qed.

Lemma linearize_in_bounds_last_zero_witness :
  (1 <= 2)%nat /\
  nth (2 - 1) (repeat 0%R 2) 0%R = 0%R /\
  exists aline lin',
    Recon.subtractBackground Examples.calibEx [1%Z; 0%Z] 2 (0 * 2) = Some aline /\
    length aline = 2%nat /\
    Recon.linearize Examples.calibEx aline 2 (repeat 0%R 2) = Some lin' /\
    length lin' = 2%nat /\ nth (2 - 1) lin' 0%R = 0%R.
Proof.
  split; [lia|].
  apply linearize_in_bounds_last_zero; try reflexivity; try lia.
  - idx_bounds.
  - simpl. lia.
Defined.


(** ** C4: distortion correction *)

(** C4: the distortion stage returns the image unchanged, dimensions and
    pixels, for every A-line count but 2200 (2500, the ex vivo probe, is
    passed through as well); for 2200 it estimates the offset from the
    first 200 columns and the 200 columns from 2000 on, and resizes the
    first [2000 + offset] columns to 2000 columns. *)
Theorem distortionCorrect_only_2200 : forall pc rs nLines (mat : Mat Recon.fl),
  Recon.distortionCorrect pc rs nLines mat =
  if Nat.eqb nLines 2200 then
    (distOffset <- Recon.getDistortionOffset pc mat 2000 200 ;;
     src <- Recon.colRange mat 0 (2000 + distOffset) ;;
     rs src 2000%nat (rows mat))
  else Ok mat.
Proof.
  intros pc rs nLines mat. unfold Recon.distortionCorrect.
  destruct (Nat.eqb nLines 2500) eqn:E1.
  - apply Nat.eqb_eq in E1; subst. reflexivity.
  - destruct (Nat.eqb nLines 2200) eqn:E2; [|reflexivity].
    apply Nat.eqb_eq in E2; subst. reflexivity.
Qed.

(** ** C9: the per-frame pipeline does not depend on the stripes *)
Section Stripes.
Import Recon.
Local Open Scope R_scope.

Variable calib : Calibration.
Variable fringe : list Z.
Variables N depth : nat.
Variables contrast brightness : R.

(** the buffers a stripe starts with *)
Definition freshBufs : list R * list R := (repeat 0 N, repeat 0 N).

(** the row of A-line [j] computed with fresh buffers *)
Definition lineOut (j : nat) : option (list fl) :=
  match processLine calib fringe N depth contrast brightness j freshBufs with
  | Some (_, _, row) => Some row
  | None => None
  end.

Definition bufInv (bufs : list R * list R) : Prop :=
  length (snd bufs) = N /\ nth (N - 1) (snd bufs) 0 = 0.

Lemma linearizeLoop_agree : forall aline is l1 l2,
  length l1 = length l2 ->
  (forall k, nth k l1 0 = nth k l2 0 \/ In k is) ->
  linearizeLoop calib aline is l1 = linearizeLoop calib aline is l2.
Proof.
  intros aline is. induction is as [|i is IH]; intros l1 l2 Hlen Hag; simpl.
  - f_equal. apply nth_ext with (d := 0) (d' := 0); auto.
    intros k _. destruct (Hag k) as [H|[]]. exact H.
  - destruct (interpAt calib aline i) as [v|]; auto.
    apply IH; [rewrite !length_set_nth; auto|].
    intros k. destruct (Nat.eq_dec k i) as [->|Hki].
    + left. destruct (Nat.lt_ge_cases i (length l1)).
      * rewrite !nth_set_nth_same by lia. reflexivity.
      * rewrite !nth_overflow by (rewrite length_set_nth; lia). reflexivity.
    + rewrite !nth_set_nth_other by auto.
      destruct (Hag k) as [H|[H|H]]; auto. congruence.
Qed.

Lemma linearizeLoop_keeps : forall aline is l l',
  linearizeLoop calib aline is l = Some l' ->
  length l' = length l /\ forall k, ~ In k is -> nth k l' 0 = nth k l 0.
Proof.
  intros aline is. induction is as [|i is IH]; intros l l' H; simpl in H.
  - inversion H; subst. auto.
  - destruct (interpAt calib aline i) as [v|]; [|discriminate].
    destruct (IH _ _ H) as [Hlen Hk]. rewrite length_set_nth in Hlen.
    split; auto. intros k Hnk. rewrite Hk by (intro; apply Hnk; right; auto).
    apply nth_set_nth_other. intro; apply Hnk; left; auto.
Qed.

Lemma processLine_bufs : forall j bufs, bufInv bufs ->
  processLine calib fringe N depth contrast brightness j bufs =
  processLine calib fringe N depth contrast brightness j freshBufs.
Proof.
  intros j [x l] [Hlen Hlast]. simpl in Hlen, Hlast. unfold processLine, freshBufs. simpl.
  destruct (subtractBackground calib fringe N (j * N)) as [aline|]; auto.
  unfold linearize. rewrite (linearizeLoop_agree aline _ l (repeat 0 N)); auto.
  - rewrite repeat_length; auto.
  - intros k. destruct (Nat.lt_ge_cases k (N - 1)).
    + right. apply in_seq. lia.
    + left. destruct (Nat.eq_dec k (N - 1)) as [->|Hk].
      * rewrite Hlast, nth_repeat. reflexivity.
      * rewrite !nth_overflow; auto; try rewrite repeat_length; lia.
Qed.

Lemma processLine_inv : forall j bufs aline lin row, bufInv bufs ->
  processLine calib fringe N depth contrast brightness j bufs = Some (aline, lin, row) ->
  bufInv (aline, lin).
Proof.
  intros j [x l] aline lin row [Hlen Hlast] H. simpl in Hlen, Hlast.
  unfold processLine in H. simpl in H.
  destruct (subtractBackground calib fringe N (j * N)) as [a|]; [|discriminate].
  destruct (linearize calib a N l) as [l'|] eqn:El; [|discriminate].
  destruct (logCompress _ _ _ _ _ _); [|discriminate].
  inversion H; subst.
  destruct (linearizeLoop_keeps _ _ _ _ El) as [Hl Hk].
  split; simpl; [congruence|].
  rewrite Hk; auto. intro Hin. apply in_seq in Hin. lia.
Qed.

Lemma freshBufs_inv : bufInv freshBufs.
Proof. split; simpl; [apply repeat_length | apply nth_repeat]. Qed.

Lemma stripeLoop_fresh : forall js bufs, bufInv bufs ->
  stripeLoop calib fringe N depth contrast brightness js bufs =
  mapM (fun j => option_map (pair j) (lineOut j)) js.
Proof.
  induction js as [|j js IH]; intros bufs Hinv; simpl; auto.
  rewrite processLine_bufs by auto. unfold lineOut.
  destruct (processLine calib fringe N depth contrast brightness j freshBufs)
    as [[[a l] row]|] eqn:E; simpl; auto.
  rewrite IH; [reflexivity|].
  apply (processLine_inv j freshBufs a l row freshBufs_inv E).
Qed.

Lemma processStripe_lines : forall r,
  processStripe calib fringe N depth contrast brightness r =
  mapM (fun j => option_map (pair j) (lineOut j)) (seq (fst r) (snd r - fst r)).
Proof.
  intros r. unfold processStripe. apply stripeLoop_fresh. apply freshBufs_inv.
Qed.

End Stripes.

Lemma nth_error_writeRows : forall (f : nat -> list Recon.fl) ws m j,
  (forall w, In w ws -> snd w = f (fst w)) ->
  nth_error (Recon.writeRows m ws) j =
  if existsb (Nat.eqb j) (map fst ws) && Nat.ltb j (length m) then Some (f j)
  else nth_error m j.
Proof.
  intros f ws. induction ws as [|w ws IH]; intros m j Hw; simpl; [reflexivity|].
  unfold Recon.writeRows in *. simpl. rewrite IH by (intros; apply Hw; right; auto).
  rewrite length_set_nth, nth_error_set_nth.
  rewrite (Hw w (or_introl eq_refl)).
  destruct (Nat.eqb j (fst w)) eqn:Ejw; simpl.
  - apply Nat.eqb_eq in Ejw. subst j. rewrite Nat.eqb_refl.
    destruct (Nat.ltb (fst w) (length m)) eqn:El;
      destruct (existsb (Nat.eqb (fst w)) (map fst ws)); simpl; try reflexivity.
    all: symmetry; apply nth_error_None; apply Nat.ltb_ge in El; exact El.
  - replace (Nat.eqb (fst w) j) with false
      by (symmetry; apply Nat.eqb_neq; apply Nat.eqb_neq in Ejw; auto).
    destruct (existsb (Nat.eqb j) (map fst ws)); reflexivity.
Qed.

Section Assemble.
Import Recon.
Local Open Scope R_scope.

Lemma assemble_reference : forall calib fringe N depth contrast brightness stripes nLines,
  validStripes stripes nLines ->
  assemble calib fringe N depth contrast brightness stripes nLines =
  mapM (lineOut calib fringe N depth contrast brightness) (seq 0 nLines).
Proof.
  intros calib fringe N depth contrast brightness stripes nLines [Hin Hcov].
  set (lo := lineOut calib fringe N depth contrast brightness).
  unfold assemble.
  destruct (mapM lo (seq 0 nLines)) as [rows|] eqn:Eref.
  - destruct (mapM_Some _ _ _ _ _ Eref) as [Hlen Hn]. rewrite length_seq in Hlen, Hn.
    set (rowOf := fun j => nth j rows []).
    assert (Hlo : forall j, (j < nLines)%nat -> lo j = Some (rowOf j)).
    { intros j Hj. specialize (Hn j 0%nat [] Hj). rewrite seq_nth in Hn by lia. exact Hn. }
    set (g := fun r : nat * nat => map (fun j => (j, rowOf j)) (seq (fst r) (snd r - fst r))).
    rewrite (mapM_map_Some _ _ _ g).
    2:{ intros r Hr. rewrite processStripe_lines. apply mapM_map_Some.
        intros j Hj. apply in_seq in Hj. specialize (Hin r Hr).
        fold lo. rewrite Hlo by lia. reflexivity. }
    f_equal. apply nth_error_ext. intros j.
    rewrite (nth_error_writeRows rowOf).
    2:{ intros w Hw. apply in_concat in Hw. destruct Hw as (l & Hl & Hw).
        apply in_map_iff in Hl. destruct Hl as (r & <- & _).
        unfold g in Hw. apply in_map_iff in Hw. destruct Hw as (k & <- & _). reflexivity. }
    rewrite repeat_length.
    destruct (Nat.lt_ge_cases j nLines) as [Hj|Hj].
    + replace (existsb (Nat.eqb j) (map fst (concat (map g stripes)))) with true.
      * replace (Nat.ltb j nLines) with true by (symmetry; apply Nat.ltb_lt; auto).
        simpl. symmetry. apply nth_error_nth'. lia.
      * symmetry. apply existsb_exists. exists j. split; [|apply Nat.eqb_refl].
        apply in_map_iff. exists (j, rowOf j). split; [reflexivity|].
        destruct (Hcov j Hj) as (r & Hr & Hjr).
        apply in_concat. exists (g r). split; [apply in_map; auto|].
        unfold g. apply in_map_iff. exists j. split; [reflexivity|]. apply in_seq. lia.
    + replace (Nat.ltb j nLines) with false by (symmetry; apply Nat.ltb_ge; auto).
      rewrite andb_false_r.
      rewrite (proj2 (nth_error_None _ _)) by (rewrite repeat_length; lia).
      symmetry. apply nth_error_None. lia.
  - apply mapM_None in Eref. destruct Eref as (j & Hj & Hlj). apply in_seq in Hj.
    destruct (Hcov j ltac:(lia)) as (r & Hr & Hjr).
    replace (mapM (processStripe calib fringe N depth contrast brightness) stripes) with
      (@None (list (list (nat * list fl)))); [reflexivity|].
    symmetry. apply mapM_None. exists r. split; auto.
    rewrite processStripe_lines. apply mapM_None. exists j. split.
    + apply in_seq. lia.
    + fold lo. rewrite Hlj. reflexivity.
Qed.

End Assemble.

(** C9: the image [reconBscan] builds before the alignment step does not
    depend on how [cv::parallel_for_] splits the A-lines into stripes nor
    on the order in which the stripes run: each stripe reuses its buffers
    from A-line to A-line, but [alineBuf] is overwritten whole and
    [linearKFringe] everywhere but its last sample, which stays zero.  So
    two calls on the same calibration, fringe and parameters, each starting
    without a previous image, return the same result. *)
Theorem reconBscan_deterministic : forall pc rs ndebug stripes1 stripes2 calib fringe
    ALineSize imageDepth params,
  Recon.validStripes stripes1 (length fringe / ALineSize) ->
  Recon.validStripes stripes2 (length fringe / ALineSize) ->
  Recon.perFrame pc rs ndebug stripes1 calib fringe ALineSize imageDepth params =
  Recon.perFrame pc rs ndebug stripes2 calib fringe ALineSize imageDepth params /\
  Recon.reconBscan pc rs ndebug stripes1 calib fringe ALineSize imageDepth params emptyMat =
  Recon.reconBscan pc rs ndebug stripes2 calib fringe ALineSize imageDepth params emptyMat.
Proof.
  intros pc rs ndebug s1 s2 calib fringe N depth params H1 H2.
  assert (Hpf : Recon.perFrame pc rs ndebug s1 calib fringe N depth params =
                Recon.perFrame pc rs ndebug s2 calib fringe N depth params).
  { unfold Recon.perFrame.
    destruct (Nat.eqb N 0); [reflexivity|].
    destruct (negb ndebug && negb (Nat.eqb (length fringe mod N) 0)); [reflexivity|].
    rewrite (assemble_reference _ _ _ _ _ _ s1 _ H1), (assemble_reference _ _ _ _ _ _ s2 _ H2).
    reflexivity. }
  split; [exact Hpf|]. unfold Recon.reconBscan. rewrite Hpf. reflexivity.
Qed.

Lemma validStripesb_sound : forall stripes nLines,
  Recon.validStripesb stripes nLines = true -> Recon.validStripes stripes nLines.
Proof.
  intros stripes nLines H. unfold Recon.validStripesb in H.
  apply andb_true_iff in H as [H1 H2]. split.
  - intros r Hr. rewrite forallb_forall in H1. specialize (H1 r Hr).
    apply andb_true_iff in H1 as [Ha Hb]. apply Nat.leb_le in Ha, Hb. lia.
  - intros j Hj. rewrite forallb_forall in H2.
    specialize (H2 j ltac:(apply in_seq; lia)).
    apply existsb_exists in H2 as (r & Hr & Hjr).
    apply andb_true_iff in Hjr as [Ha Hb]. apply Nat.leb_le in Ha. apply Nat.ltb_lt in Hb.
    exists r. split; [exact Hr | lia].
Qed.

Lemma reconBscan_deterministic_witness :
  Recon.validStripes [(0, 2)%nat] (length Examples.fringeEx4 / 2) /\
  Recon.validStripes [(1, 2)%nat; (0, 1)%nat] (length Examples.fringeEx4 / 2) /\
  (Recon.perFrame Examples.pcZero Examples.resizeKeep true [(0, 2)%nat]
     Examples.calibEx Examples.fringeEx4 2 1 Examples.paramsEx =
   Recon.perFrame Examples.pcZero Examples.resizeKeep true [(1, 2)%nat; (0, 1)%nat]
     Examples.calibEx Examples.fringeEx4 2 1 Examples.paramsEx /\
   Recon.reconBscan Examples.pcZero Examples.resizeKeep true [(0, 2)%nat]
     Examples.calibEx Examples.fringeEx4 2 1 Examples.paramsEx emptyMat =
   Recon.reconBscan Examples.pcZero Examples.resizeKeep true [(1, 2)%nat; (0, 1)%nat]
     Examples.calibEx Examples.fringeEx4 2 1 Examples.paramsEx emptyMat).
Proof.
  assert (H1 : Recon.validStripes [(0, 2)%nat] (length Examples.fringeEx4 / 2))
    by (apply validStripesb_sound; vm_compute; reflexivity).
  assert (H2 : Recon.validStripes [(1, 2)%nat; (0, 1)%nat] (length Examples.fringeEx4 / 2))
    by (apply validStripesb_sound; vm_compute; reflexivity).
  split; [exact H1|]. split; [exact H2|].
  exact (reconBscan_deterministic Examples.pcZero Examples.resizeKeep true _ _
           Examples.calibEx Examples.fringeEx4 2 1 Examples.paramsEx H1 H2).
Defined.

(** ** Acquisition runs *)

Section Acquire.
Import DAQ.
Variables (hw : Board) (snk : Sink) (buffersToAcquire : nat) (err0 : string).

(** iteration [k] goes through: no stop request before it, the wait returns
    [ApiSuccess], the buffer is saved or there is no file, and the buffer is
    posted back *)
Definition goodIter (k : nat) : Prop :=
  stopRequested hw k = false /\ waitComplete hw k = ApiSuccess /\
  (isOpen snk = false \/ writeSucceeds snk k = true) /\ repost hw k = ApiSuccess.

(** the state after [K] iterations that went through *)
Definition goodState (K : nat) : AcqState :=
  mkAcq K true err0 (map (fun k => (k, bufferData hw k)) (seq 0 K))
    (if isOpen snk then seq 0 K else []) (seq 0 K) K [] true.

Lemma acqLoop_good_step : forall K fuel,
  goodIter K -> (K < buffersToAcquire)%nat ->
  acqLoop hw snk buffersToAcquire (S fuel) (goodState K) =
  acqLoop hw snk buffersToAcquire fuel (goodState (S K)).
Proof.
  intros K fuel (Hstop & Hwait & Hsave & Hrep) HK.
  simpl. rewrite Hstop. replace (Nat.ltb K buffersToAcquire) with true
    by (symmetry; apply Nat.ltb_lt; exact HK). simpl.
  unfold iteration. simpl. rewrite Hwait.
  unfold goodState. rewrite seq_S, map_app. simpl.
  destruct (isOpen snk) eqn:Eo.
  - destruct Hsave as [Hc|Hw]; [discriminate|].
    unfold saveBuffer. simpl. rewrite Hw. simpl.
    unfold repostStep. simpl. rewrite Hrep. reflexivity.
  - unfold repostStep. simpl. rewrite Hrep. reflexivity.
Qed.

Lemma acqLoop_good_prefix : forall m K fuel,
  (forall k, (K <= k < K + m)%nat -> goodIter k) -> (K + m <= buffersToAcquire)%nat ->
  acqLoop hw snk buffersToAcquire (m + fuel) (goodState K) =
  acqLoop hw snk buffersToAcquire fuel (goodState (K + m)).
Proof.
  induction m as [|m IH]; intros K fuel Hg Hle.
  - rewrite Nat.add_0_r. reflexivity.
  - rewrite Nat.add_succ_l, acqLoop_good_step by (try apply Hg; lia).
    rewrite IH by (intros; try apply Hg; lia).
    f_equal. f_equal. lia.
Qed.

Lemma acquire_setup_ok : forall poolSize,
  beforeAsyncRead hw = ApiSuccess ->
  (forall b, (b < poolSize)%nat -> postBuffer hw b = ApiSuccess) ->
  startCapture hw = ApiSuccess ->
  acquire hw snk poolSize buffersToAcquire err0 =
  (success (acqLoop hw snk buffersToAcquire buffersToAcquire (goodState 0)),
   acqLoop hw snk buffersToAcquire buffersToAcquire (goodState 0)).
Proof.
  intros poolSize Hb Hp Hs. unfold acquire. rewrite Hb, Hs. simpl.
  replace (forallb (fun b => isSuccess (postBuffer hw b)) (seq 0 poolSize)) with true.
  - unfold goodState. simpl. destruct (isOpen snk); reflexivity.
  - symmetry. apply forallb_forall. intros b Hb'. apply in_seq in Hb'.
    rewrite Hp by lia. reflexivity.
Qed.

(** the state after [K] iterations of which a write failed at iteration
    [K0 < K] on a stream that does not throw: the stream stays bad and
    nothing is written after buffer [K0 - 1] *)
Definition badState (K0 K : nat) : AcqState :=
  mkAcq K true err0 (map (fun k => (k, bufferData hw k)) (seq 0 K))
    (seq 0 K0) (seq 0 K) K [] false.

Lemma acqLoop_write_fail_step : forall K fuel,
  stopRequested hw K = false -> waitComplete hw K = ApiSuccess ->
  isOpen snk = true -> writeSucceeds snk K = false -> throwsOnFailure snk = false ->
  repost hw K = ApiSuccess -> (K < buffersToAcquire)%nat ->
  acqLoop hw snk buffersToAcquire (S fuel) (goodState K) =
  acqLoop hw snk buffersToAcquire fuel (badState K (S K)).
Proof.
  intros K fuel Hstop Hwait Ho Hw Ht Hrep HK.
  simpl. rewrite Hstop. replace (Nat.ltb K buffersToAcquire) with true
    by (symmetry; apply Nat.ltb_lt; exact HK). simpl.
  unfold iteration, goodState. simpl. rewrite Hwait, Ho. simpl.
  unfold saveBuffer. simpl. rewrite Hw, Ht. simpl.
  unfold repostStep. simpl. rewrite Hrep. unfold badState. rewrite !seq_S, !map_app.
  reflexivity.
Qed.

Lemma acqLoop_bad_step : forall K0 K fuel,
  stopRequested hw K = false -> waitComplete hw K = ApiSuccess ->
  repost hw K = ApiSuccess -> throwsOnFailure snk = false -> (K < buffersToAcquire)%nat ->
  acqLoop hw snk buffersToAcquire (S fuel) (badState K0 K) =
  acqLoop hw snk buffersToAcquire fuel (badState K0 (S K)).
Proof.
  intros K0 K fuel Hstop Hwait Hrep Ht HK.
  simpl. rewrite Hstop. replace (Nat.ltb K buffersToAcquire) with true
    by (symmetry; apply Nat.ltb_lt; exact HK). simpl.
  unfold iteration. simpl. rewrite Hwait.
  assert (Hs : forall st, repostStep hw K st =
            mkAcq (buffersCompleted st) true (errMsg st) (ring st) (saved st)
              (reposted st ++ [K]) (waits st) (critical st) (fsGood st))
    by (intros st; unfold repostStep; rewrite Hrep; reflexivity).
  destruct (isOpen snk); simpl;
    [unfold saveBuffer; simpl; rewrite Ht; simpl|]; rewrite Hs; simpl;
    unfold badState; rewrite !seq_S, !map_app; reflexivity.
Qed.

Lemma acqLoop_bad_prefix : forall m K0 K fuel,
  (forall k, (K <= k < K + m)%nat ->
     stopRequested hw k = false /\ waitComplete hw k = ApiSuccess /\ repost hw k = ApiSuccess) ->
  throwsOnFailure snk = false -> (K + m <= buffersToAcquire)%nat ->
  acqLoop hw snk buffersToAcquire (m + fuel) (badState K0 K) =
  acqLoop hw snk buffersToAcquire fuel (badState K0 (K + m)).
Proof.
  induction m as [|m IH]; intros K0 K fuel Hg Ht Hle.
  - rewrite Nat.add_0_r. reflexivity.
  - rewrite Nat.add_succ_l.
    destruct (Hg K ltac:(lia)) as (Hstop & Hwait & Hrep).
    transitivity (acqLoop hw snk buffersToAcquire (m + fuel) (badState K0 (S K))).
    + apply acqLoop_bad_step; auto; lia.
    + rewrite IH by (first [assumption | intros; apply Hg; lia | lia]). f_equal. f_equal. lia.
Qed.

Lemma acqLoop_bad_done : forall K0 fuel,
  acqLoop hw snk buffersToAcquire fuel (badState K0 buffersToAcquire) =
  badState K0 buffersToAcquire.
Proof.
  intros K0 [|fuel]; [reflexivity|]. simpl. rewrite Nat.ltb_irrefl, andb_false_r.
  reflexivity.
Qed.

(** iteration [k] goes through, its write possibly failing on a stream
    that does not throw: no stop request before it, the wait returns
    [ApiSuccess], a stream that throws takes the write, and the buffer is
    posted back *)
Definition goesThrough (k : nat) : Prop :=
  stopRequested hw k = false /\ waitComplete hw k = ApiSuccess /\
  (isOpen snk = true -> throwsOnFailure snk = true -> writeSucceeds snk k = true) /\
  repost hw k = ApiSuccess.

(** the state after [K] iterations that went through, [sv] being the
    buffers written and [g] the state of the stream *)
Definition throughState (K : nat) (sv : list nat) (g : bool) : AcqState :=
  mkAcq K true err0 (map (fun k => (k, bufferData hw k)) (seq 0 K)) sv (seq 0 K) K [] g.

(** a stream that throws stays good, a failed write ending the run *)
Definition streamInv (g : bool) : Prop :=
  isOpen snk = true -> throwsOnFailure snk = true -> g = true.

Lemma acqLoop_through_step : forall K fuel sv g,
  goesThrough K -> (K < buffersToAcquire)%nat -> streamInv g ->
  exists sv' g', streamInv g' /\
    acqLoop hw snk buffersToAcquire (S fuel) (throughState K sv g) =
    acqLoop hw snk buffersToAcquire fuel (throughState (S K) sv' g').
Proof.
  intros K fuel sv g (Hstop & Hwait & Hsave & Hrep) HK Hinv.
  assert (Hs : forall st, repostStep hw K st =
            mkAcq (buffersCompleted st) true (errMsg st) (ring st) (saved st)
              (reposted st ++ [K]) (waits st) (critical st) (fsGood st))
    by (intros st; unfold repostStep; rewrite Hrep; reflexivity).
  simpl. rewrite Hstop. replace (Nat.ltb K buffersToAcquire) with true
    by (symmetry; apply Nat.ltb_lt; exact HK). simpl.
  unfold iteration. simpl. rewrite Hwait.
  unfold throughState. rewrite !seq_S, !map_app. simpl.
  destruct (isOpen snk) eqn:Eo.
  - unfold saveBuffer. simpl.
    destruct (g && writeSucceeds snk K) eqn:Ew.
    + exists (sv ++ [K]), g. split; [exact Hinv|]. simpl. rewrite Hs. reflexivity.
    + destruct (throwsOnFailure snk) eqn:Et.
      * exfalso. rewrite (Hinv Eo Et), (Hsave eq_refl eq_refl) in Ew. discriminate.
      * exists sv, false. split; [intros Ho Ht; rewrite Ht in Et; discriminate Et|]. simpl. rewrite Hs. reflexivity.
  - exists sv, g. split; [exact Hinv|]. rewrite Hs. reflexivity.
Qed.

Lemma acqLoop_through_prefix : forall m K fuel sv g,
  (forall k, (K <= k < K + m)%nat -> goesThrough k) -> (K + m <= buffersToAcquire)%nat ->
  streamInv g ->
  exists sv' g', streamInv g' /\
    acqLoop hw snk buffersToAcquire (m + fuel) (throughState K sv g) =
    acqLoop hw snk buffersToAcquire fuel (throughState (K + m) sv' g').
Proof.
  induction m as [|m IH]; intros K fuel sv g Hg Hle Hinv.
  - exists sv, g. rewrite Nat.add_0_r. split; [exact Hinv|reflexivity].
  - rewrite Nat.add_succ_l.
    destruct (acqLoop_through_step K (m + fuel) sv g ltac:(apply Hg; lia) ltac:(lia) Hinv)
      as (sv1 & g1 & Hinv1 & E1).
    destruct (IH (S K) fuel sv1 g1 ltac:(intros; apply Hg; lia) ltac:(lia) Hinv1)
      as (sv2 & g2 & Hinv2 & E2).
    exists sv2, g2. split; [exact Hinv2|]. rewrite E1, E2. do 2 f_equal. lia.
Qed.

Lemma goodState_0 : goodState 0 = throughState 0 [] true.
Proof. unfold goodState, throughState. destruct (isOpen snk); reflexivity. Qed.

End Acquire.

(** C8: a wait that does not return [ApiSuccess] ends the run.  Suppose the
    setup calls succeed, iterations [0 .. K-1] go through (each wait
    succeeds, each buffer is posted back; a write may fail on a stream that
    does not throw, which does not end the run) and no stop is
    requested before iteration [K < buffersToAcquire], whose
    [AlazarWaitAsyncBufferComplete] returns anything but [ApiSuccess]
    (timeout, overflow, not ready or another code).  Then [DAQ::acquire]
    returns false with [m_errMsg] the message of that condition (also the
    one [qCritical] message); the wait was called exactly [K+1] times, so
    the failed one was not retried; only buffers [0 .. K-1] were posted
    back; and the ring buffer holds exactly the [K] buffers completed
    before, each with its index and its full contents. *)
Theorem acquire_wait_failure_is_fatal : forall hw snk poolSize buffersToAcquire err0 K,
  DAQ.beforeAsyncRead hw = DAQ.ApiSuccess ->
  (forall b, (b < poolSize)%nat -> DAQ.postBuffer hw b = DAQ.ApiSuccess) ->
  DAQ.startCapture hw = DAQ.ApiSuccess ->
  (K < buffersToAcquire)%nat ->
  (forall k, (k < K)%nat -> goesThrough hw snk k) ->
  DAQ.stopRequested hw K = false ->
  DAQ.waitComplete hw K <> DAQ.ApiSuccess ->
  let res := DAQ.acquire hw snk poolSize buffersToAcquire err0 in
  fst res = false /\
  DAQ.errMsg (snd res) = DAQ.waitErrMsg (DAQ.waitComplete hw K) /\
  DAQ.critical (snd res) = [DAQ.waitErrMsg (DAQ.waitComplete hw K)] /\
  DAQ.waits (snd res) = S K /\
  DAQ.buffersCompleted (snd res) = K /\
  DAQ.reposted (snd res) = seq 0 K /\
  DAQ.ring (snd res) = map (fun k => (k, DAQ.bufferData hw k)) (seq 0 K).
Proof.
  intros hw snk poolSize n err0 K Hb Hp Hs HK Hg Hstop Hwait res. subst res.
  rewrite (acquire_setup_ok hw snk n err0 poolSize Hb Hp Hs), goodState_0.
  destruct (acqLoop_through_prefix hw snk n err0 K 0 (S (n - S K)) [] true
              ltac:(intros; apply Hg; lia) ltac:(lia) ltac:(intros ? ?; reflexivity))
    as (sv & g & _ & E).
  replace (K + S (n - S K))%nat with n in E by lia. rewrite Nat.add_0_l in E.
  rewrite E. simpl. rewrite Hstop. replace (Nat.ltb K n) with true
    by (symmetry; apply Nat.ltb_lt; exact HK). simpl.
  unfold DAQ.iteration. simpl.
  destruct (DAQ.waitComplete hw K); [congruence| | | |];
    simpl; repeat split; reflexivity.
Qed.

(** C7 (as the code behaves): with the file open, let iterations
    [0 .. K-1] go through and the write of completed buffer [K] fail.  If
    [m_fs] throws [std::ios_base::failure] on a failed write, the [catch]
    logs [Error: write buffer K+1 failed -- e], [e] being [GetLastError()],
    and the run stops: [acquire]
    returns false, buffer [K] is in the ring but neither saved nor posted
    back, and no further wait happens.  If it does not throw (the default
    exception mask, which [prepareAcquisition] keeps), nothing is logged and
    the run goes on to [buffersToAcquire]: every later buffer is waited for,
    produced and posted back, but the stream stays bad and none of them is
    written. *)
Theorem acquire_write_failure : forall hw snk poolSize buffersToAcquire err0 K,
  DAQ.beforeAsyncRead hw = DAQ.ApiSuccess ->
  (forall b, (b < poolSize)%nat -> DAQ.postBuffer hw b = DAQ.ApiSuccess) ->
  DAQ.startCapture hw = DAQ.ApiSuccess ->
  (K < buffersToAcquire)%nat ->
  (forall k, (k < K)%nat -> goodIter hw snk k) ->
  DAQ.stopRequested hw K = false ->
  DAQ.waitComplete hw K = DAQ.ApiSuccess ->
  DAQ.isOpen snk = true ->
  DAQ.writeSucceeds snk K = false ->
  let res := DAQ.acquire hw snk poolSize buffersToAcquire err0 in
  (DAQ.throwsOnFailure snk = true ->
     fst res = false /\
     DAQ.critical (snd res) = [DAQ.msgWriteFailed (S K) (DAQ.lastError snk K)] /\
     DAQ.waits (snd res) = S K /\
     DAQ.reposted (snd res) = seq 0 K /\
     DAQ.saved (snd res) = seq 0 K /\
     DAQ.ring (snd res) = map (fun k => (k, DAQ.bufferData hw k)) (seq 0 (S K))) /\
  (DAQ.throwsOnFailure snk = false ->
     (forall k, (K <= k < buffersToAcquire)%nat ->
        DAQ.stopRequested hw k = false /\ DAQ.waitComplete hw k = DAQ.ApiSuccess /\
        DAQ.repost hw k = DAQ.ApiSuccess) ->
     fst res = true /\
     DAQ.critical (snd res) = [] /\
     DAQ.waits (snd res) = buffersToAcquire /\
     DAQ.reposted (snd res) = seq 0 buffersToAcquire /\
     DAQ.saved (snd res) = seq 0 K /\
     DAQ.ring (snd res) =
       map (fun k => (k, DAQ.bufferData hw k)) (seq 0 buffersToAcquire)).
Proof.
  intros hw snk poolSize n err0 K Hb Hp Hs HK Hg Hstop Hwait Ho Hw res. subst res.
  rewrite (acquire_setup_ok hw snk n err0 poolSize Hb Hp Hs).
  assert (E : DAQ.acqLoop hw snk n n (goodState hw snk err0 0) =
              DAQ.acqLoop hw snk n (S (n - S K)) (goodState hw snk err0 K)).
  { replace n with (K + S (n - S K))%nat at 2 by lia.
    apply (acqLoop_good_prefix hw snk n err0 K 0 (S (n - S K))); intros; try apply Hg; lia. }
  rewrite E. split.
  - intros Ht. rewrite (seq_S K), map_app. simpl. rewrite Hstop. replace (Nat.ltb K n) with true
      by (symmetry; apply Nat.ltb_lt; exact HK). simpl.
    unfold DAQ.iteration, goodState. simpl. rewrite Hwait, Ho. simpl.
    unfold DAQ.saveBuffer. simpl. rewrite Hw, Ht. simpl.
    repeat split; reflexivity.
  - intros Ht Hrest.
    destruct (Hrest K ltac:(lia)) as (_ & _ & HrK).
    rewrite (acqLoop_write_fail_step hw snk n err0 K (n - S K) Hstop Hwait Ho Hw Ht HrK HK).
    replace (n - S K)%nat with (n - S K + 0)%nat by lia.
    rewrite (acqLoop_bad_prefix hw snk n err0 (n - S K) K (S K) 0)
      by (first [assumption | intros; apply Hrest; lia | lia]).
    replace (S K + (n - S K))%nat with n by lia.
    rewrite acqLoop_bad_done. unfold badState. simpl. repeat split; reflexivity.
Qed.

(** the write of buffer 0 fails on the default stream, which goes on;
    the wait for buffer 1 times out *)
Lemma acquire_wait_failure_is_fatal_witness :
  DAQ.waitComplete Examples.boardTimeoutAt1 1 = DAQ.ApiWaitTimeout /\
  DAQ.writeSucceeds Examples.sinkFail0 0 = false /\
  let res := DAQ.acquire Examples.boardTimeoutAt1 Examples.sinkFail0 2 3 EmptyString in
  fst res = false /\
  DAQ.errMsg (snd res) = DAQ.waitErrMsg (DAQ.waitComplete Examples.boardTimeoutAt1 1) /\
  DAQ.critical (snd res) = [DAQ.waitErrMsg (DAQ.waitComplete Examples.boardTimeoutAt1 1)] /\
  DAQ.waits (snd res) = 2%nat /\
  DAQ.buffersCompleted (snd res) = 1%nat /\
  DAQ.reposted (snd res) = seq 0 1 /\
  DAQ.ring (snd res) = map (fun k => (k, DAQ.bufferData Examples.boardTimeoutAt1 k)) (seq 0 1).
Proof.
  split; [reflexivity|]. split; [reflexivity|].
  apply (acquire_wait_failure_is_fatal Examples.boardTimeoutAt1 Examples.sinkFail0 2 3
           EmptyString 1); try reflexivity; try lia.
  - intros k Hk. replace k with 0%nat by lia. unfold goesThrough. simpl.
    split; [reflexivity|]. split; [reflexivity|]. split; [discriminate|reflexivity].
  - simpl. discriminate.
Defined.

Lemma acquire_write_failure_witness :
  let res := DAQ.acquire Examples.boardOK Examples.sinkFail0Throw 2 3 EmptyString in
  let res' := DAQ.acquire Examples.boardOK Examples.sinkFail0 2 3 EmptyString in
  (fst res = false /\
   DAQ.critical (snd res) = [DAQ.msgWriteFailed 1 112] /\
   DAQ.waits (snd res) = 1%nat /\
   DAQ.reposted (snd res) = [] /\
   DAQ.saved (snd res) = [] /\
   DAQ.ring (snd res) = [(0%nat, [0%Z])]) /\
  (fst res' = true /\
   DAQ.critical (snd res') = [] /\
   DAQ.waits (snd res') = 3%nat /\
   DAQ.reposted (snd res') = seq 0 3 /\
   DAQ.saved (snd res') = [] /\
   DAQ.ring (snd res') = map (fun k => (k, DAQ.bufferData Examples.boardOK k)) (seq 0 3)).
Proof.
  split.
  - apply (acquire_write_failure Examples.boardOK Examples.sinkFail0Throw 2 3 EmptyString 0);
      try reflexivity; try lia.
  - apply (acquire_write_failure Examples.boardOK Examples.sinkFail0 2 3 EmptyString 0);
      try reflexivity; try lia.
    intros k Hk. simpl. auto.
Defined.

(** Against C7 as stated: on a board whose every call succeeds, with two
    buffers to acquire and the first write failing, the stream as
    [prepareAcquisition] opens it reports nothing and does not save buffer 1;
    a stream that throws stops the run after one wait, with buffer 0 never
    posted back. *)
Lemma acquire_write_failure_not_reported_or_stops :
  let r := DAQ.acquire Examples.boardOK Examples.sinkFail0 2 2 EmptyString in
  let r' := DAQ.acquire Examples.boardOK Examples.sinkFail0Throw 2 2 EmptyString in
  DAQ.critical (snd r) = [] /\ ~ In 1%nat (DAQ.saved (snd r)) /\
  fst r' = false /\ ~ In 0%nat (DAQ.reposted (snd r')) /\ DAQ.waits (snd r') = 1%nat.
Proof.
  vm_compute. repeat split; try reflexivity; intros H; exact H.
Qed.

(** ** The seeding of [prevMat] *)

Section Seeding.
Local Open Scope R_scope.

(** A-line [j] of a fringe under [calibEx] with two samples per A-line,
    depth 1 and [paramsEx]: the linearised line is [25/2 * a, 0], the
    windowed one [a, 0] (the Hamming window is [0.08] at 0), and bin 0 of
    the transform is [a + 0i]. *)
Lemma lineOut_ex : forall fringe j,
  lineOut Examples.calibEx fringe 2 1 1 (/ 4) j =
  match nth_error fringe (j * 2), nth_error fringe (S (j * 2)) with
  | Some a, Some _ => Some [compressedBin 1 (/ 4) (IZR a, 0)]
  | _, _ => None
  end.
Proof.
  intros fringe j. unfold lineOut, Recon.processLine, Recon.subtractBackground.
  rewrite <- (Nat.add_0_r (j * 2)) at 1. rewrite <- (Nat.add_1_r (j * 2)).
  cbn [seq mapM Examples.calibEx Recon.background]. unfold at_.
  destruct (nth_error fringe (j * 2 + 0)) as [a|];
  destruct (nth_error fringe (j * 2 + 1)) as [b|]; try reflexivity.
  cbn -[Rplus Rmult Rminus Rdiv Rinv Ropp IZR cos sin ln PI INR Rlt_dec Rle_dec
        Recon.clampScore Recon.score].
  rewrite clampScore_score. do 3 f_equal. simpl INR.
  rewrite !Rmult_0_r, !Rmult_0_l, !Rdiv_0_l, cos_0, sin_0. f_equal; lra.
Qed.

(** a bin [1 + 0i] gives [1 * (10 * log10 1 + 1/4)]; a zero bin [-inf],
    clamped to 0 *)
Lemma compressedBin_ex1 : compressedBin 1 (/ 4) (IZR 1, 0) = Recon.Fin (/ 4).
Proof.
  unfold compressedBin, log10R, clampR; cbn [fst snd].
  replace (IZR 1 * IZR 1 + 0 * 0) with 1 by (simpl; ring).
  destruct (Rlt_dec 0 1); [|lra]. rewrite ln_1.
  replace (1 * (10 * (0 / ln 10) + / 4)) with (/ 4) by (unfold Rdiv; ring).
  destruct (Rlt_dec (/ 4) 0); [lra|]. destruct (Rlt_dec 255 (/ 4)); [lra|]. reflexivity.
Qed.

Lemma compressedBin_ex0 : compressedBin 1 (/ 4) (IZR 0, 0) = Recon.Fin 0.
Proof.
  unfold compressedBin; cbn [fst snd].
  destruct (Rlt_dec 0 (IZR 0 * IZR 0 + 0 * 0)); [simpl in *; lra|].
  destruct (Rlt_dec 0 1); [reflexivity|lra].
Qed.

(** the frame of a fringe of two-sample A-lines under [calibEx] and
    [paramsEx], with [assert] compiled out *)
Lemma perFrame_ex : forall pc rs stripes fringe rowsData,
  Recon.validStripes stripes (length fringe / 2) ->
  (length fringe / 2 <> 2200)%nat ->
  mapM (lineOut Examples.calibEx fringe 2 1 1 (/ 4)) (seq 0 (length fringe / 2)) =
    Some rowsData ->
  Recon.perFrame pc rs true stripes Examples.calibEx fringe 2 1 Examples.paramsEx =
  Ok (Recon.transpose (mkMat (length fringe / 2) 1 rowsData)).
Proof.
  intros pc rs stripes fringe rowsData Hv Hn Hrows. unfold Recon.perFrame.
  cbn [Nat.eqb negb andb]. rewrite assemble_reference by exact Hv.
  cbn [Examples.paramsEx Recon.contrast Recon.brightness]. rewrite Hrows.
  cbn [of_opt res_bind]. unfold Recon.distortionCorrect.
  destruct (Nat.eqb (length fringe / 2) 2500); [reflexivity|].
  replace (Nat.eqb (length fringe / 2) 2200) with false
    by (symmetry; apply Nat.eqb_neq; exact Hn).
  reflexivity.
Qed.

Lemma saturate_u8_quarter : Recon.saturate_u8 (Recon.Fin (/ 4)) = 0%Z.
Proof.
  unfold Recon.saturate_u8, Recon.roundHalfEven.
  assert (Hu : up (/ 4) = 1%Z) by (symmetry; apply tech_up; simpl; lra).
  unfold Int_part. rewrite Hu. simpl.
  destruct (Rlt_dec (/ 4 - 0) (/ 2)) as [_|H]; [reflexivity|lra].
Qed.

(** one A-line of two samples [1, 0]: the pixel is [1 * (10 * log10 1 + 1/4)] *)
Lemma perFrame_example : forall pc rs,
  Recon.perFrame pc rs true [(0, 1)%nat] Examples.calibEx [1%Z; 0%Z] 2 1 Examples.paramsEx =
  Ok (mkMat 1 1 [[Recon.Fin (/ 4)]]).
Proof.
  intros pc rs. rewrite (perFrame_ex _ _ _ _ [[Recon.Fin (/ 4)]]).
  - reflexivity.
  - apply validStripesb_sound; vm_compute; reflexivity.
  - simpl; lia.
  - change (length [1%Z; 0%Z] / 2)%nat with 1%nat. cbn [seq mapM].
    rewrite lineOut_ex. cbn [nth_error Nat.mul Nat.add].
    rewrite compressedBin_ex1. reflexivity.
Qed.

Lemma saturate_u8_zero : Recon.saturate_u8 (Recon.Fin 0) = 0%Z.
Proof.
  unfold Recon.saturate_u8, Recon.roundHalfEven.
  assert (Hu : up 0 = 1%Z) by (symmetry; apply tech_up; simpl; lra).
  unfold Int_part. rewrite Hu. simpl.
  destruct (Rlt_dec (0 - 0) (/ 2)) as [_|H]; [reflexivity|lra].
Qed.

(** two A-lines [1, 0] and [0, 0]: the second is a zero bin, whose score
    [1 * (10 * -inf + 1/4)] is [-inf], clamped to 0 *)
Lemma perFrame_example2 : forall pc rs,
  Recon.perFrame pc rs true [(0, 2)%nat] Examples.calibEx [1%Z; 0%Z; 0%Z; 0%Z] 2 1
    Examples.paramsEx =
  Ok (mkMat 1 2 [[Recon.Fin (/ 4); Recon.Fin 0]]).
Proof.
  intros pc rs. rewrite (perFrame_ex _ _ _ _ [[Recon.Fin (/ 4)]; [Recon.Fin 0]]).
  - reflexivity.
  - apply validStripesb_sound; vm_compute; reflexivity.
  - simpl; lia.
  - change (length [1%Z; 0%Z; 0%Z; 0%Z] / 2)%nat with 2%nat. cbn [seq mapM].
    rewrite !lineOut_ex. cbn [nth_error Nat.mul Nat.add].
    rewrite compressedBin_ex1, compressedBin_ex0. reflexivity.
Qed.

(** three A-lines [1, 0], [0, 0], [1, 0] *)
Lemma perFrame_example3 : forall pc rs,
  Recon.perFrame pc rs true [(0, 3)%nat] Examples.calibEx [1%Z; 0%Z; 0%Z; 0%Z; 1%Z; 0%Z] 2 1
    Examples.paramsEx =
  Ok (mkMat 1 3 [[Recon.Fin (/ 4); Recon.Fin 0; Recon.Fin (/ 4)]]).
Proof.
  intros pc rs.
  rewrite (perFrame_ex _ _ _ _ [[Recon.Fin (/ 4)]; [Recon.Fin 0]; [Recon.Fin (/ 4)]]).
  - reflexivity.
  - apply validStripesb_sound; vm_compute; reflexivity.
  - simpl; lia.
  - change (length [1%Z; 0%Z; 0%Z; 0%Z; 1%Z; 0%Z] / 2)%nat with 3%nat. cbn [seq mapM].
    rewrite !lineOut_ex. cbn [nth_error Nat.mul Nat.add].
    rewrite compressedBin_ex1, compressedBin_ex0. reflexivity.
Qed.

Lemma reconBscan_example2 :
  Recon.reconBscan Examples.pcZero Examples.resizeKeep true [(0, 2)%nat] Examples.calibEx
    [1%Z; 0%Z; 0%Z; 0%Z] 2 1 Examples.paramsEx emptyMat =
  Ok (mkMat 1 2 [[0%Z; 0%Z]], mkMat 1 2 [[Recon.Fin (/ 4); Recon.Fin 0]]).
Proof.
  unfold Recon.reconBscan. rewrite perFrame_example2. cbn [res_bind].
  unfold Recon.alignStep, emptyMat. cbn [cols rows Nat.eqb andb res_bind].
  unfold Recon.convertU8. cbn [map rows cols data].
  rewrite saturate_u8_quarter, saturate_u8_zero. reflexivity.
Qed.

(** C5 (as the code behaves): when [prevMat] and the image [M] of the
    per-frame pipeline (up to the distortion correction) differ in width
    or height, in particular when [prevMat] is still the empty static
    matrix and [M] is not empty, no column shift is applied: [prevMat]
    becomes [M] itself, with its [T] values, and the returned
    [cv::Mat_<uint8_t>] is [M] converted with [saturate_cast<uint8_t>]
    (rounded half to even, clamped to [0, 255]). *)
Theorem reconBscan_seeds_prevMat : forall pc rs ndebug stripes calib fringe ALineSize
    imageDepth params prevMat M,
  Recon.perFrame pc rs ndebug stripes calib fringe ALineSize imageDepth params = Ok M ->
  cols prevMat <> cols M \/ rows prevMat <> rows M ->
  Recon.reconBscan pc rs ndebug stripes calib fringe ALineSize imageDepth params prevMat =
  Ok (Recon.convertU8 M, M).
Proof.
  intros pc rs ndebug stripes calib fringe N depth params prev M HM Hdim.
  unfold Recon.reconBscan. rewrite HM. simpl. unfold Recon.alignStep.
  replace (Nat.eqb (cols prev) (cols M) && Nat.eqb (rows prev) (rows M)) with false.
  - reflexivity.
  - symmetry. apply andb_false_iff.
    destruct Hdim as [H|H]; [left|right]; apply Nat.eqb_neq; exact H.
Qed.

Lemma reconBscan_seeds_prevMat_witness :
  Recon.perFrame Examples.pcZero Examples.resizeKeep true [(0, 1)%nat] Examples.calibEx
    [1%Z; 0%Z] 2 1 Examples.paramsEx = Ok (mkMat 1 1 [[Recon.Fin (/ 4)]]) /\
  (cols (@emptyMat Recon.fl) <> cols (mkMat 1 1 [[Recon.Fin (/ 4)]]) \/
   rows (@emptyMat Recon.fl) <> rows (mkMat 1 1 [[Recon.Fin (/ 4)]])) /\
  Recon.reconBscan Examples.pcZero Examples.resizeKeep true [(0, 1)%nat] Examples.calibEx
    [1%Z; 0%Z] 2 1 Examples.paramsEx emptyMat =
  Ok (Recon.convertU8 (mkMat 1 1 [[Recon.Fin (/ 4)]]), mkMat 1 1 [[Recon.Fin (/ 4)]]).
Proof.
  assert (HM := perFrame_example Examples.pcZero Examples.resizeKeep).
  assert (Hd : cols (@emptyMat Recon.fl) <> cols (mkMat 1 1 [[Recon.Fin (/ 4)]]) \/
               rows (@emptyMat Recon.fl) <> rows (mkMat 1 1 [[Recon.Fin (/ 4)]]))
    by (left; simpl; lia).
  split; [exact HM|]. split; [exact Hd|].
  exact (reconBscan_seeds_prevMat Examples.pcZero Examples.resizeKeep true _ _ _ _ _ _
           emptyMat _ HM Hd).
Defined.

(** Against C5 as stated: on the first call, with the one-pixel image
    above, [prevMat] becomes the pixel [1/4] while the returned image holds
    [0]; the state is not the returned image. *)
Lemma reconBscan_prevMat_not_output :
  Recon.reconBscan Examples.pcZero Examples.resizeKeep true [(0, 1)%nat] Examples.calibEx
    [1%Z; 0%Z] 2 1 Examples.paramsEx emptyMat =
  Ok (mkMat 1 1 [[0%Z]], mkMat 1 1 [[Recon.Fin (/ 4)]]) /\
  map (map (fun z => Recon.Fin (IZR z))) [[0%Z]] <> [[Recon.Fin (/ 4)]].
Proof.
  split.
  - unfold Recon.reconBscan. rewrite perFrame_example. cbn [res_bind].
    unfold Recon.alignStep, emptyMat. cbn [cols rows Nat.eqb andb res_bind].
    unfold Recon.convertU8. cbn [map rows cols data].
    rewrite saturate_u8_quarter. reflexivity.
  - simpl. intros H. injection H as H. lra.
Qed.

End Seeding.

(** ** A fringe that is not a whole number of A-lines *)

Lemma mapM_ext_in : forall A B (f g : A -> option B) l,
  (forall x, In x l -> f x = g x) -> mapM f l = mapM g l.
Proof.
  induction l as [|a t IH]; intros H; simpl; [reflexivity|].
  rewrite (H a (or_introl eq_refl)), IH by (intros; apply H; right; auto).
  reflexivity.
Qed.

Lemma nth_error_firstn_lt : forall A (l : list A) n i,
  (i < n)%nat -> nth_error (firstn n l) i = nth_error l i.
Proof.
  induction l as [|a t IH]; intros [|n] [|i] Hi; simpl; try reflexivity; try lia.
  apply IH. lia.
Qed.

Lemma subtractBackground_firstn : forall calib fringe N L j,
  (j * N + N <= L)%nat ->
  Recon.subtractBackground calib (firstn L fringe) N (j * N) =
  Recon.subtractBackground calib fringe N (j * N).
Proof.
  intros calib fringe N L j HL. unfold Recon.subtractBackground.
  apply mapM_ext_in. intros i Hi. apply in_seq in Hi.
  unfold at_. rewrite nth_error_firstn_lt by lia. reflexivity.
Qed.

Lemma lineOut_firstn : forall calib fringe N depth contrast brightness L j,
  (j * N + N <= L)%nat ->
  lineOut calib (firstn L fringe) N depth contrast brightness j =
  lineOut calib fringe N depth contrast brightness j.
Proof.
  intros calib fringe N depth contrast brightness L j HL.
  unfold lineOut, Recon.processLine. rewrite subtractBackground_firstn by exact HL.
  reflexivity.
Qed.

(** with [assert] compiled out, [reconBscan]'s pipeline only sees the
    first [length fringe / ALineSize] whole A-lines *)
Lemma perFrame_firstn : forall pc rs stripes calib fringe N depth params,
  (0 < N)%nat -> Recon.validStripes stripes (length fringe / N) ->
  Recon.perFrame pc rs true stripes calib fringe N depth params =
  Recon.perFrame pc rs true stripes calib (firstn (length fringe / N * N) fringe) N depth params.
Proof.
  intros pc rs stripes calib fringe N depth params HN Hv.
  assert (Hlen : (length (firstn (length fringe / N * N) fringe) / N = length fringe / N)%nat).
  { rewrite length_firstn, Nat.min_l by (rewrite Nat.mul_comm; apply Nat.Div0.mul_div_le).
    apply Nat.div_mul. lia. }
  unfold Recon.perFrame. rewrite Hlen.
  replace (Nat.eqb N 0) with false by (symmetry; apply Nat.eqb_neq; lia). simpl.
  rewrite !assemble_reference by (rewrite ?Hlen; exact Hv).
  rewrite (mapM_ext_in _ _
             (lineOut calib (firstn (length fringe / N * N) fringe) N depth
                (Recon.contrast params) (Recon.brightness params))
             (lineOut calib fringe N depth (Recon.contrast params) (Recon.brightness params))).
  - reflexivity.
  - intros j Hj. apply in_seq in Hj. apply lineOut_firstn.
    replace (j * N + N)%nat with (S j * N)%nat by lia. apply Nat.mul_le_mono_r. lia.
Qed.

(** C6 (as the code behaves): when the fringe length is not a multiple of
    [ALineSize > 0], the only check is [assert]: with assertions enabled
    the call aborts the process before anything is computed or stored, and
    no result reaches the caller; compiled with [NDEBUG] there is no check
    at all, and the call behaves exactly as on the fringe cut down to its
    [length / ALineSize] whole A-lines, the trailing samples being ignored,
    including the update of [prevMat]. *)
Theorem reconBscan_partial_aline : forall pc rs stripes calib fringe ALineSize imageDepth
    params prevMat,
  (0 < ALineSize)%nat ->
  (length fringe mod ALineSize <> 0)%nat ->
  Recon.validStripes stripes (length fringe / ALineSize) ->
  Recon.reconBscan pc rs false stripes calib fringe ALineSize imageDepth params prevMat = Abort /\
  Recon.reconBscan pc rs true stripes calib fringe ALineSize imageDepth params prevMat =
  Recon.reconBscan pc rs true stripes calib
    (firstn (length fringe / ALineSize * ALineSize) fringe) ALineSize imageDepth params prevMat.
Proof.
  intros pc rs stripes calib fringe N depth params prev HN Hmod Hv. split.
  - unfold Recon.reconBscan, Recon.perFrame.
    replace (Nat.eqb N 0) with false by (symmetry; apply Nat.eqb_neq; lia).
    replace (Nat.eqb (length fringe mod N) 0) with false
      by (symmetry; apply Nat.eqb_neq; exact Hmod).
    reflexivity.
  - unfold Recon.reconBscan. rewrite (perFrame_firstn pc rs stripes calib fringe N depth params HN Hv).
    reflexivity.
Qed.

Lemma reconBscan_partial_aline_witness :
  (0 < 2)%nat /\ (length [1%Z; 0%Z; 5%Z] mod 2 <> 0)%nat /\
  Recon.validStripes [(0, 1)%nat] (length [1%Z; 0%Z; 5%Z] / 2) /\
  Recon.reconBscan Examples.pcZero Examples.resizeKeep false [(0, 1)%nat] Examples.calibEx
    [1%Z; 0%Z; 5%Z] 2 1 Examples.paramsEx emptyMat = Abort /\
  Recon.reconBscan Examples.pcZero Examples.resizeKeep true [(0, 1)%nat] Examples.calibEx
    [1%Z; 0%Z; 5%Z] 2 1 Examples.paramsEx emptyMat =
  Recon.reconBscan Examples.pcZero Examples.resizeKeep true [(0, 1)%nat] Examples.calibEx
    (firstn (length [1%Z; 0%Z; 5%Z] / 2 * 2) [1%Z; 0%Z; 5%Z]) 2 1 Examples.paramsEx emptyMat.
Proof.
  assert (H1 : (0 < 2)%nat) by lia.
  assert (H2 : (length [1%Z; 0%Z; 5%Z] mod 2 <> 0)%nat) by (simpl; lia).
  assert (H3 : Recon.validStripes [(0, 1)%nat] (length [1%Z; 0%Z; 5%Z] / 2))
    by (apply validStripesb_sound; vm_compute; reflexivity).
  split; [exact H1|]. split; [exact H2|]. split; [exact H3|].
  exact (reconBscan_partial_aline Examples.pcZero Examples.resizeKeep [(0, 1)%nat]
           Examples.calibEx [1%Z; 0%Z; 5%Z] 2 1 Examples.paramsEx emptyMat H1 H2 H3).
Defined.

(** Against C6 as stated: with [NDEBUG], a three-sample fringe for
    [ALineSize = 2] is not rejected: the call returns an image and
    [prevMat], empty before, becomes the one-pixel image of the first
    A-line. *)
Lemma reconBscan_partial_aline_accepted :
  Recon.reconBscan Examples.pcZero Examples.resizeKeep true [(0, 1)%nat] Examples.calibEx
    [1%Z; 0%Z; 5%Z] 2 1 Examples.paramsEx emptyMat =
  Ok (mkMat 1 1 [[0%Z]], mkMat 1 1 [[Recon.Fin (/ 4)]]) /\
  mkMat 1 1 [[Recon.Fin (/ 4)]] <> emptyMat.
Proof.
  split.
  - unfold Recon.reconBscan.
    rewrite perFrame_firstn by (try lia; apply validStripesb_sound; vm_compute; reflexivity).
    simpl firstn. rewrite perFrame_example. cbn [res_bind].
    unfold Recon.alignStep, emptyMat. cbn [cols rows Nat.eqb andb res_bind].
    unfold Recon.convertU8. cbn [map rows cols data].
    rewrite saturate_u8_quarter. reflexivity.
  - discriminate.
Qed.

(** ** Circular shifts: [circshift] and [shiftXCircular] (OCTRecon.hpp) *)


Lemma rotate_full : forall E (row : list E) n k,
  length row = n -> (k <= n)%nat -> rotate k n row = skipn k row ++ firstn k row.
Proof.
  intros E row n k Hl Hk. unfold rotate.
  rewrite (firstn_all2 (n:=n) row) by lia. rewrite (skipn_all2 (n:=n) row) by lia. rewrite app_nil_r. reflexivity.
Qed.

Lemma length_rotate : forall E (row : list E) n k,
  length row = n -> (k <= n)%nat -> length (rotate k n row) = n.
Proof.
  intros E row n k Hl Hk. rewrite rotate_full by auto.
  rewrite length_app, length_skipn, length_firstn. lia.
Qed.

Lemma nth_rotate : forall E (row : list E) n k j d,
  length row = n -> (k <= n)%nat -> (j < n)%nat ->
  nth j (rotate k n row) d = nth ((j + k) mod n) row d.
Proof.
  intros E row n k j d Hl Hk Hj. rewrite rotate_full by auto.
  destruct (Nat.lt_ge_cases j (n - k)) as [H|H].
  - rewrite app_nth1 by (rewrite length_skipn; lia).
    rewrite nth_skipn, Nat.mod_small by lia. f_equal. lia.
  - rewrite app_nth2 by (rewrite length_skipn; lia).
    rewrite length_skipn, nth_firstn.
    replace (Nat.ltb (j - (length row - k)) k) with true by (symmetry; apply Nat.ltb_lt; lia).
    rewrite <- (Nat.mod_unique (j + k) n 1 (j + k - n)) by lia. f_equal. lia.
Qed.

Lemma wfMat_row_length : forall E (m : Mat E) r,
  wfMat m -> (r < rows m)%nat -> length (nth r (data m) []) = cols m.
Proof.
  intros E m r [Hl Hf] Hr. rewrite Forall_nth in Hf. apply Hf. lia.
Qed.

Lemma mat_ext : forall E (m1 m2 : Mat E),
  wfMat m1 -> wfMat m2 -> rows m1 = rows m2 -> cols m1 = cols m2 ->
  (forall r j d, (r < rows m1)%nat -> (j < cols m1)%nat ->
     nth j (nth r (data m1) []) d = nth j (nth r (data m2) []) d) ->
  m1 = m2.
Proof.
  intros E [r1 c1 d1] [r2 c2 d2] H1 H2 Hr Hc Hn. simpl in *. subst r2 c2.
  assert (Ha := fun r => wfMat_row_length E (mkMat r1 c1 d1) r H1).
  assert (Hb := fun r => wfMat_row_length E (mkMat r1 c1 d2) r H2).
  simpl in Ha, Hb. destruct H1 as [Hl1 _], H2 as [Hl2 _]. simpl in Hl1, Hl2.
  f_equal. apply (nth_ext _ _ [] []); [lia|].
  intros r Hr. rewrite Hl1 in Hr.
  specialize (Ha r Hr). specialize (Hb r Hr). specialize (Hn r).
  destruct (nth r d1 []) as [|x t] eqn:E1.
  - destruct (nth r d2 []); [reflexivity|]. simpl in *. lia.
  - rewrite <- E1 in *. apply (nth_ext _ _ x x); [lia|].
    intros j Hj. apply Hn; lia.
Qed.

Lemma toInt_in : forall z, (INT_MIN <= z <= INT_MAX)%Z -> toInt z = Ok z.
Proof.
  intros z Hz. unfold toInt.
  replace ((INT_MIN <=? z) && (z <=? INT_MAX))%Z with true
    by (symmetry; apply andb_true_intro; split; apply Z.leb_le; lia).
  reflexivity.
Qed.

Lemma circshift_ok : forall E (m : Mat E) s,
  (0 < Z.of_nat (cols m))%Z -> (Z.of_nat (cols m) <= INT_MAX)%Z ->
  (- Z.of_nat (cols m) <= s)%Z -> (s + Z.of_nat (cols m) <= INT_MAX)%Z ->
  circshift 1 m s =
  Ok (mkMat (rows m) (cols m)
        (map (rotate (Z.to_nat (s mod Z.of_nat (cols m))) (cols m)) (data m))).
Proof.
  intros E m s Hc Hcm Hlo Hhi. unfold circshift, intAdd, intMul.
  set (c := Z.of_nat (cols m)) in *.
  assert (Hm := Z.mod_pos_bound s c Hc).
  unfold INT_MIN, INT_MAX in *.
  rewrite toInt_in by (unfold INT_MIN, INT_MAX; lia). simpl.
  replace (c =? 0)%Z with false by (symmetry; apply Z.eqb_neq; lia).
  rewrite Z.rem_mod_nonneg by lia.
  rewrite Z.add_mod, Z.mod_same, Z.add_0_r, Z.mod_mod by lia.
  rewrite Z.mul_1_r, toInt_in by (unfold INT_MIN, INT_MAX; lia). simpl.
  rewrite Z.mul_1_r, toInt_in by (unfold INT_MIN, INT_MAX; lia). simpl.
  replace ((0 <=? s mod c) && (s mod c <=? c))%Z with true
    by (symmetry; apply andb_true_intro; split; apply Z.leb_le; lia).
  unfold c. rewrite Nat2Z.id. reflexivity.
Qed.

Lemma shiftXCircular_ok : forall E (m : Mat E) s,
  (0 < Z.of_nat (cols m))%Z -> (2 * Z.of_nat (cols m) - 1 <= INT_MAX)%Z ->
  shiftXCircular m s =
  Ok (mkMat (rows m) (cols m)
        (map (fun row =>
                firstn (Z.to_nat (s mod Z.of_nat (cols m)))
                  (skipn (cols m - Z.to_nat (s mod Z.of_nat (cols m))) row) ++
                firstn (cols m - Z.to_nat (s mod Z.of_nat (cols m))) row) (data m))).
Proof.
  intros E m s Hc H2c. unfold shiftXCircular, intAdd.
  set (c := Z.of_nat (cols m)) in *.
  replace (c =? 0)%Z with false by (symmetry; apply Z.eqb_neq; lia).
  assert (Hr : (Z.abs (Z.rem s c) < Z.abs c)%Z) by (apply Z.rem_bound_abs; lia).
  rewrite (Z.abs_eq c), Z.abs_lt in Hr by lia.
  rewrite toInt_in by (unfold INT_MIN, INT_MAX in *; lia). simpl.
  replace (Z.rem (Z.rem s c + c) c)%Z with (s mod c)%Z; [reflexivity|].
  rewrite Z.rem_mod_nonneg by lia.
  rewrite Z.add_mod, Z.mod_same, Z.add_0_r, Z.mod_mod by lia.
  rewrite Z.rem_eq by lia.
  replace (s - c * Z.quot s c)%Z with (s + (- Z.quot s c) * c)%Z by ring.
  rewrite Z.mod_add by lia. reflexivity.
Qed.

Lemma rotate_nil : forall E k n, rotate k n (@nil E) = [].
Proof. intros. unfold rotate. rewrite !firstn_nil, !skipn_nil. reflexivity. Qed.

Lemma shift_row_rotate : forall E (row : list E) w k,
  length row = w -> (k <= w)%nat ->
  firstn k (skipn (w - k) row) ++ firstn (w - k) row = rotate (w - k) w row.
Proof.
  intros E row w k Hl Hk. rewrite rotate_full by lia.
  rewrite (firstn_all2 (n:=k) (skipn (w - k) row)) by (rewrite length_skipn; lia).
  reflexivity.
Qed.

Lemma shift_row_rotate_inv : forall E (row : list E) w k,
  length row = w -> (k <= w)%nat ->
  firstn k (skipn (w - k) (rotate k w row)) ++ firstn (w - k) (rotate k w row) = row.
Proof.
  intros E row w k Hl Hk. rewrite rotate_full by lia.
  assert (Hs : length (skipn k row) = (w - k)%nat) by (rewrite length_skipn; lia).
  rewrite skipn_app, Hs, Nat.sub_diag, (skipn_all2 (n:=w-k) (skipn k row)) by lia.
  rewrite (firstn_app (w - k) (skipn k row)), Hs, Nat.sub_diag, firstn_O, app_nil_r.
  rewrite (firstn_all2 (n:=w-k) (skipn k row)) by lia. simpl.
  rewrite (firstn_all2 (n:=k) (firstn k row)) by (rewrite length_firstn; lia).
  apply firstn_skipn.
Qed.

Lemma mod_shift_back : forall w k j,
  (j < w)%nat -> (k <= w)%nat -> (((j + k) mod w + (w - k)) mod w = j)%nat.
Proof.
  intros w k j Hj Hk.
  destruct (Nat.lt_ge_cases (j + k) w) as [H|H].
  - rewrite (Nat.mod_small (j + k)) by lia.
    rewrite <- (Nat.mod_unique (j + k + (w - k)) w 1 j) by lia. reflexivity.
  - rewrite <- (Nat.mod_unique (j + k) w 1 (j + k - w)) by lia.
    rewrite Nat.mod_small by lia. lia.
Qed.

Lemma Zmod_lt_nat : forall (s : Z) (w : nat), (0 < w)%nat ->
  (Z.to_nat (s mod Z.of_nat w) < w)%nat.
Proof.
  intros s w Hw. assert (H := Z.mod_pos_bound s (Z.of_nat w) ltac:(lia)). lia.
Qed.

Lemma circshift_spec : forall E (m : Mat E) s,
  wfMat m -> (0 < cols m)%nat -> (Z.of_nat (cols m) <= INT_MAX)%Z ->
  (- Z.of_nat (cols m) <= s)%Z -> (s + Z.of_nat (cols m) <= INT_MAX)%Z ->
  exists m', circshift 1 m s = Ok m' /\ wfMat m' /\ rows m' = rows m /\ cols m' = cols m /\
  forall r j d, (r < rows m)%nat -> (j < cols m)%nat ->
    nth j (nth r (data m') []) d =
    nth ((j + Z.to_nat (s mod Z.of_nat (cols m))) mod cols m) (nth r (data m) []) d.
Proof.
  intros E m s Hwf Hc Hcm Hlo Hhi.
  assert (Hk := Zmod_lt_nat s (cols m) Hc).
  set (k := Z.to_nat (s mod Z.of_nat (cols m))) in *.
  eexists. split; [rewrite circshift_ok by lia; reflexivity|].
  destruct Hwf as [Hl Hf]. split; [split|]; simpl.
  - rewrite length_map. exact Hl.
  - apply Forall_map. eapply Forall_impl; [|exact Hf]. intros row Hr. simpl in Hr. fold k. apply length_rotate; lia.
  - split; [reflexivity|]. split; [reflexivity|]. intros r j d Hr Hj.
    fold k.
    replace (nth r (map (rotate k (cols m)) (data m)) []) with (rotate k (cols m) (nth r (data m) []))
      by (rewrite <- (rotate_nil E k (cols m)) at 2; symmetry; apply map_nth).
    apply nth_rotate; [|lia|exact Hj].
    rewrite Forall_nth in Hf. apply Hf. lia.
Qed.

Lemma shiftXCircular_spec : forall E (m : Mat E) s,
  wfMat m -> (0 < cols m)%nat -> (2 * Z.of_nat (cols m) - 1 <= INT_MAX)%Z ->
  exists m', shiftXCircular m s = Ok m' /\ wfMat m' /\ rows m' = rows m /\ cols m' = cols m /\
  forall r j d, (r < rows m)%nat -> (j < cols m)%nat ->
    nth ((j + Z.to_nat (s mod Z.of_nat (cols m))) mod cols m) (nth r (data m') []) d =
    nth j (nth r (data m) []) d.
Proof.
  intros E m s Hwf Hc H2c.
  assert (Hk := Zmod_lt_nat s (cols m) Hc).
  set (k := Z.to_nat (s mod Z.of_nat (cols m))) in *.
  eexists. split; [rewrite shiftXCircular_ok by lia; reflexivity|].
  fold k. destruct Hwf as [Hl Hf].
  assert (Hmap : map (fun row => firstn k (skipn (cols m - k) row) ++ firstn (cols m - k) row) (data m)
                 = map (rotate (cols m - k) (cols m)) (data m)).
  { apply map_ext_in. intros row Hin. rewrite Forall_forall in Hf.
    apply shift_row_rotate; [apply Hf; exact Hin | lia]. }
  split; [split|]; simpl; rewrite Hmap.
  - rewrite length_map. exact Hl.
  - apply Forall_map. eapply Forall_impl; [|exact Hf]. intros row Hr. simpl in Hr.
    apply length_rotate; lia.
  - split; [reflexivity|]. split; [reflexivity|]. intros r j d Hr Hj.
    replace (nth r (map (rotate (cols m - k) (cols m)) (data m)) [])
      with (rotate (cols m - k) (cols m) (nth r (data m) []))
      by (rewrite <- (rotate_nil E (cols m - k) (cols m)) at 2; symmetry; apply map_nth).
    assert (Hrow : length (nth r (data m) []) = cols m)
      by (rewrite Forall_nth in Hf; apply Hf; lia).
    rewrite nth_rotate; [|exact Hrow|lia|apply Nat.mod_upper_bound; lia].
    rewrite mod_shift_back by lia. reflexivity.
Qed.

(** Round trip: shifting back with [shiftXCircular] by the same [s]
    restores the matrix that [circshift] rotated. *)
Lemma shiftXCircular_undoes_circshift : forall E (m m1 : Mat E) s,
  wfMat m -> (0 < cols m)%nat -> (2 * Z.of_nat (cols m) - 1 <= INT_MAX)%Z ->
  (- Z.of_nat (cols m) <= s)%Z -> (s + Z.of_nat (cols m) <= INT_MAX)%Z ->
  circshift 1 m s = Ok m1 -> shiftXCircular m1 s = Ok m.
Proof.
  intros E m m1 s Hwf Hc H2c Hlo Hhi Hm1.
  rewrite circshift_ok in Hm1 by lia. injection Hm1 as <-.
  rewrite shiftXCircular_ok; cbn [cols rows data]; [|lia|lia].
  assert (Hk := Zmod_lt_nat s (cols m) Hc).
  set (k := Z.to_nat (s mod Z.of_nat (cols m))) in *.
  destruct m as [r c d]. simpl in *. f_equal. f_equal.
  rewrite map_map. rewrite <- (map_id d) at 2. apply map_ext_in.
  intros row Hin. destruct Hwf as [_ Hf]. simpl in Hf. rewrite Forall_forall in Hf.
  apply shift_row_rotate_inv; [apply Hf; exact Hin | lia].
Qed.

(** Two [circshift]s by [a] then [b] give the same matrix as one
    [circshift] by [(a + b) mod cols]. *)
Lemma circshift_compose : forall E (m m1 m2 : Mat E) a b,
  wfMat m -> (0 < cols m)%nat -> (2 * Z.of_nat (cols m) - 1 <= INT_MAX)%Z ->
  (- Z.of_nat (cols m) <= a)%Z -> (a + Z.of_nat (cols m) <= INT_MAX)%Z ->
  (- Z.of_nat (cols m) <= b)%Z -> (b + Z.of_nat (cols m) <= INT_MAX)%Z ->
  circshift 1 m a = Ok m1 -> circshift 1 m1 b = Ok m2 ->
  circshift 1 m ((a + b) mod Z.of_nat (cols m)) = Ok m2.
Proof.
  intros E m m1 m2 a b Hwf Hc H2c Hla Hha Hlb Hhb H1 H2.
  set (c := cols m) in *.
  assert (Hab := Z.mod_pos_bound (a + b) (Z.of_nat c) ltac:(lia)).
  destruct (circshift_spec E m a Hwf Hc ltac:(lia) Hla Hha) as (m1' & E1 & W1 & R1 & C1 & N1).
  rewrite H1 in E1. injection E1 as <-.
  destruct (circshift_spec E m1 b W1 ltac:(lia) ltac:(lia) ltac:(lia) ltac:(lia))
    as (m2' & E2 & W2 & R2 & C2 & N2).
  rewrite H2 in E2. injection E2 as <-.
  destruct (circshift_spec E m ((a + b) mod Z.of_nat c) Hwf Hc ltac:(lia) ltac:(lia) ltac:(lia))
    as (m3 & E3 & W3 & R3 & C3 & N3).
  rewrite E3. f_equal. apply mat_ext; auto; try congruence.
  intros r j d Hr Hj. rewrite R3 in Hr. rewrite C3 in Hj.
  rewrite N3 by auto. rewrite C1 in N2. rewrite R1 in N2. rewrite N2 by auto.
  rewrite N1 by (auto; apply Nat.mod_upper_bound; lia).
  f_equal. fold c.
  assert (Ha := Z.mod_pos_bound a (Z.of_nat c) ltac:(lia)).
  assert (Hb := Z.mod_pos_bound b (Z.of_nat c) ltac:(lia)).
  rewrite Z.mod_mod by lia.
  apply Nat2Z.inj. rewrite !Nat2Z.inj_mod, !Nat2Z.inj_add, !Nat2Z.inj_mod, !Nat2Z.inj_add.
  rewrite !Z2Nat.id by lia.
  rewrite Zplus_mod_idemp_l. rewrite (Z.add_mod a b) by lia.
  rewrite Zplus_mod_idemp_r. f_equal. ring.
Qed.

(** When [s + cols] is negative and [s] is not a multiple of [cols],
    the offset [(s + cols) % cols] handed to [std::rotate] is negative, out of
    the row: on a matrix with at least one row, [circshift] is undefined
    behaviour. *)
Lemma circshift_far_negative_ub : forall E (m : Mat E) s,
  (0 < rows m)%nat -> (0 < cols m)%nat -> (Z.of_nat (cols m) <= INT_MAX)%Z ->
  (INT_MIN <= s + Z.of_nat (cols m) < 0)%Z -> (s mod Z.of_nat (cols m) <> 0)%Z ->
  circshift 1 m s = UB.
Proof.
  intros E m s Hrw Hc Hcm Hs Hmod. unfold circshift, intAdd, intMul.
  set (c := Z.of_nat (cols m)) in *.
  rewrite toInt_in by (unfold INT_MIN, INT_MAX in *; lia). simpl.
  replace (c =? 0)%Z with false by (symmetry; apply Z.eqb_neq; lia).
  assert (Hr : (Z.abs (Z.rem (s + c) c) < Z.abs c)%Z) by (apply Z.rem_bound_abs; lia).
  rewrite (Z.abs_eq c), Z.abs_lt in Hr by lia.
  assert (Hn : (Z.rem (s + c) c <= 0)%Z) by (apply Z.rem_nonpos; lia).
  assert (Hz : (Z.rem (s + c) c <> 0)%Z).
  { intros H0. apply Hmod. apply Z.rem_divide in H0; [|lia].
    apply Z.mod_divide in H0; [|lia].
    rewrite <- (Z.mod_add s 1 c) by lia. rewrite Z.mul_1_l. exact H0. }
  rewrite Z.mul_1_r, toInt_in by (unfold INT_MIN, INT_MAX in *; lia). simpl.
  rewrite Z.mul_1_r, toInt_in by (unfold INT_MIN, INT_MAX in *; lia). simpl.
  replace (0 <=? Z.rem (s + c) c)%Z with false by (symmetry; apply Z.leb_gt; lia).
  replace (Nat.eqb (rows m) 0) with false by (symmetry; apply Nat.eqb_neq; lia).
  reflexivity.
Qed.

Ltac concrete := first [ reflexivity | split; [reflexivity | repeat constructor]
                       | unfold INT_MIN, INT_MAX; simpl; lia | vm_compute; reflexivity
                       | vm_compute; discriminate ].

Lemma circshift_far_negative_ub_witness :
  circshift 1 Examples.rowZ3 (-5) = UB.
Proof. apply (circshift_far_negative_ub Z Examples.rowZ3 (-5)); concrete. Defined.

Lemma circshift_compose_witness :
  circshift 1 Examples.rowZ3 ((1 + 1) mod 3) = Ok (mkMat 1 3 [[30; 10; 20]%Z]).
Proof.
  apply (circshift_compose Z Examples.rowZ3 (mkMat 1 3 [[20; 30; 10]%Z])
           (mkMat 1 3 [[30; 10; 20]%Z]) 1 1); concrete.
Defined.

Lemma shiftXCircular_undoes_circshift_witness :
  shiftXCircular (mkMat 1 3 [[20; 30; 10]%Z]) 1 = Ok Examples.rowZ3.
Proof.
  apply (shiftXCircular_undoes_circshift Z Examples.rowZ3 (mkMat 1 3 [[20; 30; 10]%Z]) 1); concrete.
Defined.

(** [circshift(mat, s)] with [-cols <= s] and [s + cols] in int range
    succeeds and rotates every row left by [s mod cols]: output column [j] is
    input column [(j + s mod cols) mod cols]; the shape is kept. *)
Theorem circshift_rotates_left : forall E (m : Mat E) s,
  wfMat m -> (0 < cols m)%nat -> (Z.of_nat (cols m) <= INT_MAX)%Z ->
  (- Z.of_nat (cols m) <= s)%Z -> (s + Z.of_nat (cols m) <= INT_MAX)%Z ->
  exists m', circshift 1 m s = Ok m' /\ wfMat m' /\ rows m' = rows m /\ cols m' = cols m /\
  forall r j d, (r < rows m)%nat -> (j < cols m)%nat ->
    nth j (nth r (data m') []) d =
    nth ((j + Z.to_nat (s mod Z.of_nat (cols m))) mod cols m) (nth r (data m) []) d.
Proof. exact circshift_spec. Qed.

(** [shiftXCircular(mat, s)] succeeds for every shift [s] and rotates
    every row right by [s mod cols]: input column [j] lands in output column
    [(j + s mod cols) mod cols]; the shape is kept. *)
Theorem shiftXCircular_rotates_right : forall E (m : Mat E) s,
  wfMat m -> (0 < cols m)%nat -> (2 * Z.of_nat (cols m) - 1 <= INT_MAX)%Z ->
  exists m', shiftXCircular m s = Ok m' /\ wfMat m' /\ rows m' = rows m /\ cols m' = cols m /\
  forall r j d, (r < rows m)%nat -> (j < cols m)%nat ->
    nth ((j + Z.to_nat (s mod Z.of_nat (cols m))) mod cols m) (nth r (data m') []) d =
    nth j (nth r (data m) []) d.
Proof. exact shiftXCircular_spec. Qed.

Lemma circshift_rotates_left_witness :
  exists m', circshift 1 Examples.rowZ3 (-1) = Ok m' /\ wfMat m' /\ rows m' = 1%nat /\ cols m' = 3%nat /\
  forall r j d, (r < 1)%nat -> (j < 3)%nat ->
    nth j (nth r (data m') []) d =
    nth ((j + Z.to_nat ((-1) mod 3)) mod 3) (nth r (data Examples.rowZ3) []) d.
Proof. apply (circshift_rotates_left Z Examples.rowZ3 (-1)); concrete. Defined.

Lemma shiftXCircular_rotates_right_witness :
  exists m', shiftXCircular Examples.rowZ3 (-4) = Ok m' /\ wfMat m' /\ rows m' = 1%nat /\ cols m' = 3%nat /\
  forall r j d, (r < 1)%nat -> (j < 3)%nat ->
    nth ((j + Z.to_nat ((-4) mod 3)) mod 3) (nth r (data m') []) d =
    nth j (nth r (data Examples.rowZ3) []) d.
Proof. apply (shiftXCircular_rotates_right Z Examples.rowZ3 (-4)); concrete. Defined.

(** ** Calibration files and the Hamming window (OCTRecon.hpp) *)

Section CalibrationFiles.
Import Recon.

Lemma set_nth_split : forall A (l : list A) i v, (i < length l)%nat ->
  set_nth l i v = firstn i l ++ v :: skipn (S i) l.
Proof.
  intros A l. induction l as [|h t IH]; intros i v Hi; simpl in Hi; [lia|].
  destruct i as [|i]; simpl; [reflexivity|]. rewrite IH by lia. reflexivity.
Qed.

Lemma readLoop_closed : forall A (vals : list (option A)) dst i, (i <= length dst)%nat ->
  readLoop vals dst i =
  firstn i dst ++ firstn (length dst - i)
                    (parsedValues vals ++ skipn (i + length (parsedValues vals)) dst).
Proof.
  intros A vals. induction vals as [|o rest IH]; intros dst i Hi.
  - simpl. rewrite Nat.add_0_r, (firstn_all2 (n:=length dst - i)) by (rewrite length_skipn; lia).
    symmetry; apply firstn_skipn.
  - destruct o as [v|]; simpl.
    + destruct (Nat.ltb_spec i (length dst)) as [Hlt|Hge].
      * rewrite IH by (rewrite length_set_nth; lia).
        rewrite length_set_nth, set_nth_split by lia.
        rewrite firstn_app, length_firstn, Nat.min_l by lia.
        replace (S i - i)%nat with 1%nat by lia.
        rewrite firstn_firstn, Nat.min_r by lia. cbn [firstn].
        rewrite skipn_app, length_firstn, Nat.min_l by lia.
        rewrite (skipn_all2 (firstn i dst)) by (rewrite length_firstn; lia).
        replace (S i + length (parsedValues rest) - i)%nat
          with (S (length (parsedValues rest))) by lia.
        rewrite skipn_cons, skipn_skipn.
        replace (length (parsedValues rest) + S i)%nat
          with (i + S (length (parsedValues rest)))%nat by lia.
        rewrite <- app_assoc. simpl.
        replace (length dst - i)%nat with (S (length dst - S i)) by lia. reflexivity.
      * replace i with (length dst) by lia. rewrite Nat.sub_diag. simpl.
        rewrite firstn_all, app_nil_r. reflexivity.
    + rewrite Nat.add_0_r, (firstn_all2 (n:=length dst - i)) by (rewrite length_skipn; lia).
      symmetry; apply firstn_skipn.
Qed.

(** [readTextFileToArray] overwrites the first entries of [dst] with the
    values parsed from the file, up to the first value that does not parse
    and never past [dst.size()]; the rest of [dst] is untouched, and a file
    that cannot be opened leaves [dst] as it is. *)
Theorem readTextFileToArray_fills_prefix : forall A isOpen (vals : list (option A)) dst,
  readTextFileToArray isOpen vals dst =
  firstn (length dst)
    ((if isOpen then parsedValues vals else []) ++
     skipn (length (if isOpen then parsedValues vals else [])) dst).
Proof.
  intros A isOpen vals dst. unfold readTextFileToArray. destruct isOpen.
  - rewrite readLoop_closed by lia. simpl. rewrite Nat.sub_0_r. reflexivity.
  - simpl. rewrite firstn_all. reflexivity.
Qed.

Lemma skipn_repeat' : forall A (x : A) k n, skipn k (repeat x n) = repeat x (n - k).
Proof.
  intros A x k. induction k as [|k IH]; intros n; [rewrite Nat.sub_0_r; reflexivity|].
  destruct n as [|n]; [reflexivity|]. simpl. apply IH.
Qed.

Lemma readTextFileToArray_repeat : forall A isOpen (vals : list (option A)) x n,
  readTextFileToArray isOpen vals (repeat x n) =
  firstn n ((if isOpen then parsedValues vals else []) ++
            repeat x (n - length (if isOpen then parsedValues vals else []))).
Proof.
  intros. rewrite readTextFileToArray_fills_prefix, repeat_length, skipn_repeat'. reflexivity.
Qed.

(** The [Calibration] constructor raises on a negative [n_samples]
    (the vector size); otherwise [background] and [phaseCalib] both have
    [n_samples] entries: the parsed file prefix, then zeros. *)
Theorem Calibration_from_files : forall n_samples bgOpen bgVals phOpen phVals,
  makeCalibration n_samples bgOpen bgVals phOpen phVals =
  if (n_samples <? 0)%Z then Raise else
  let n := Z.to_nat n_samples in
  let bg := if bgOpen then parsedValues bgVals else [] in
  let ph := if phOpen then parsedValues phVals else [] in
  Ok (mkCalib (firstn n (bg ++ repeat 0%R (n - length bg)))
              (firstn n (ph ++ repeat (mkUnit 0 0 0) (n - length ph)))).
Proof.
  intros. unfold makeCalibration. destruct (n_samples <? 0)%Z; [reflexivity|].
  rewrite !readTextFileToArray_repeat. reflexivity.
Qed.

Local Open Scope R_scope.

Lemma getHamming_nth : forall n i d, (i < n)%nat ->
  nth i (getHamming n) d = 0.54 - 0.46 * cos (2 * 3.1415926535897932384626 * INR i / INR n).
Proof.
  intros n i d Hi. unfold getHamming.
  set (f := fun j : nat => 0.54 - 0.46 * cos (2 * 3.1415926535897932384626 * INR j / INR n)).
  rewrite (nth_indep _ d (f 0%nat)) by (rewrite length_map, length_seq; exact Hi).
  rewrite map_nth, seq_nth by exact Hi. reflexivity.
Qed.

(** Every coefficient of [getHamming(n)] lies in [[0.08, 1]] and the
    window has [n] entries. *)
Theorem getHamming_range : forall n i, (i < n)%nat ->
  length (getHamming n) = n /\ 0.08 <= nth i (getHamming n) 0 <= 1.
Proof.
  intros n i Hi. split; [unfold getHamming; rewrite length_map, length_seq; reflexivity|].
  rewrite getHamming_nth by exact Hi.
  destruct (COS_bound (2 * 3.1415926535897932384626 * INR i / INR n)). lra.
Qed.

Local Close Scope R_scope.

Lemma linearizeLoop_None_in : forall calib aline is lin i,
  In i is -> interpAt calib aline i = None -> linearizeLoop calib aline is lin = None.
Proof.
  intros calib aline is. induction is as [|i0 is IH]; intros lin i Hin Hi; [destruct Hin|].
  simpl. destruct (interpAt calib aline i0) eqn:E0; [|reflexivity].
  destruct Hin as [<-|Hin]; [congruence|]. eapply IH; eauto.
Qed.

Lemma makeCalibration_phase : forall n bgOpen bgVals phOpen phVals calib,
  makeCalibration (Z.of_nat n) bgOpen bgVals phOpen phVals = Ok calib ->
  phaseCalib calib =
  firstn n ((if phOpen then parsedValues phVals else []) ++
            repeat (mkUnit 0 0 0) (n - length (if phOpen then parsedValues phVals else []))).
Proof.
  intros n bgOpen bgVals phOpen phVals calib H. unfold makeCalibration in H.
  replace (Z.of_nat n <? 0)%Z with false in H by (symmetry; apply Z.ltb_ge; lia).
  injection H as <-. simpl. rewrite Nat2Z.id, readTextFileToArray_repeat. reflexivity.
Qed.

Lemma In_firstn_In : forall A (x : A) n l, In x (firstn n l) -> In x l.
Proof.
  intros A x n l H. rewrite <- (firstn_skipn n l). apply in_or_app. left. exact H.
Qed.

(** If every phase-calibration index read from the file is below
    [n_samples - 1], the linearization of [reconBscan] never reads outside
    its buffer on an A-line of [n_samples] samples (the zero padding has
    index 0). *)
Theorem Calibration_phase_in_range_linearize : forall n bgOpen bgVals phOpen phVals calib aline lin,
  makeCalibration (Z.of_nat n) bgOpen bgVals phOpen phVals = Ok calib ->
  (forall u, In u (firstn n (if phOpen then parsedValues phVals else [])) -> (idx u < n - 1)%nat) ->
  length aline = n ->
  exists lin', linearize calib aline n lin = Some lin'.
Proof.
  intros n bgOpen bgVals phOpen phVals calib aline lin Hc Hu Hl.
  destruct (Nat.le_gt_cases n 1) as [Hn|Hn].
  - exists lin. unfold linearize. replace (n - 1)%nat with 0%nat by lia. reflexivity.
  - apply makeCalibration_phase in Hc.
    set (ph := if phOpen then parsedValues phVals else []) in *.
    eexists. apply linearize_valid.
    + rewrite Hc, length_firstn, length_app, repeat_length. lia.
    + exact Hl.
    + intros u Hin. rewrite Hc, firstn_app in Hin. apply in_app_or in Hin.
      destruct Hin as [Hin|Hin]; [apply Hu; exact Hin|].
      apply In_firstn_In, repeat_spec in Hin. subst u. simpl. lia.
Qed.

(** A phase-calibration entry at [i < n_samples - 1] whose index is
    [n_samples - 1] or more makes the linearization read past the A-line:
    undefined behaviour. *)
Theorem Calibration_phase_out_of_range_linearize : forall n bgOpen bgVals phVals calib aline lin i,
  makeCalibration (Z.of_nat n) bgOpen bgVals true phVals = Ok calib ->
  (i < n - 1)%nat -> (i < length (parsedValues phVals))%nat ->
  (n - 1 <= idx (nth i (parsedValues phVals) (mkUnit 0 0 0)))%nat ->
  length aline = n ->
  linearize calib aline n lin = None.
Proof.
  intros n bgOpen bgVals phVals calib aline lin i Hc Hi Hip Hk Hl.
  apply makeCalibration_phase in Hc. simpl in Hc.
  unfold linearize. apply (linearizeLoop_None_in _ _ _ _ i); [apply in_seq; lia|].
  unfold interpAt, at_.
  assert (Hn : nth_error (phaseCalib calib) i = Some (nth i (parsedValues phVals) (mkUnit 0 0 0))).
  { rewrite Hc, nth_error_firstn_lt by lia. rewrite nth_error_app1 by lia.
    apply nth_error_nth'. exact Hip. }
  rewrite Hn. cbv beta iota zeta.
  set (k := idx (nth i (parsedValues phVals) (mkUnit 0 0 0))) in *.
  replace (nth_error aline (S k)) with (@None R) by (symmetry; apply nth_error_None; lia).
  destruct (nth_error (phaseCalib calib) k), (nth_error aline k); reflexivity.
Qed.

Lemma getHamming_range_witness :
  length (getHamming 4) = 4%nat /\ (0.08 <= nth 2 (getHamming 4) 0 <= 1)%R.
Proof. apply (getHamming_range 4 2). lia. Defined.

Lemma Calibration_phase_in_range_linearize_witness :
  exists lin', linearize (mkCalib [1; 0; 0]%R [mkUnit 1 1 0; mkUnit 0 0 0; mkUnit 0 0 0])
                 [4; 5; 6]%R 3 [0; 0; 0]%R = Some lin'.
Proof.
  apply (Calibration_phase_in_range_linearize 3 true [Some 1%R] true
           [Some (mkUnit 1 1 0); None]).
  - reflexivity.
  - intros u Hu. simpl in Hu. destruct Hu as [<-|[]]. simpl. lia.
  - reflexivity.
Defined.

Lemma Calibration_phase_out_of_range_linearize_witness :
  linearize (mkCalib [0; 0; 0]%R [mkUnit 2 1 0; mkUnit 0 0 0; mkUnit 0 0 0])
    [4; 5; 6]%R 3 [0; 0; 0]%R = None.
Proof.
  apply (Calibration_phase_out_of_range_linearize 3 false [] [Some (mkUnit 2 1 0)] _ _ _ 0);
    simpl; first [reflexivity | lia].
Defined.

End CalibrationFiles.

(** ** Pixel range of the reconstructed image (OCTRecon.hpp) *)

Section PixelRange.
Import Recon.
Local Open Scope R_scope.

(** a value [logCompress] stores when the contrast is not 0: finite, within
    [0, 255] *)
Definition pixelOK (x : fl) : Prop :=
  match x with Fin r => 0 <= r <= 255 | _ => False end.

(** the finite value of a pixel *)
Definition finPart (x : fl) : R := match x with Fin r => r | _ => 0 end.

Lemma Forall_set_nth : forall A (P : A -> Prop) l i x,
  Forall P l -> P x -> Forall P (set_nth l i x).
Proof.
  intros A P l. induction l as [|h t IH]; intros i x Hl Hx; [constructor|].
  inversion Hl; subst. destruct i; simpl; constructor; auto.
Qed.

Lemma Forall_nth_default : forall A (P : A -> Prop) l i d,
  Forall P l -> P d -> P (nth i l d).
Proof.
  intros A P l i d Hl Hd. destruct (Nat.lt_ge_cases i (length l)).
  - rewrite Forall_nth in Hl. apply Hl. exact H.
  - rewrite nth_overflow by exact H. exact Hd.
Qed.

Lemma mapM_Forall : forall A B (f : A -> option B) (Q : B -> Prop) l bs,
  (forall x y, f x = Some y -> Q y) -> mapM f l = Some bs -> Forall Q bs.
Proof.
  intros A B f Q l. induction l as [|a t IH]; intros bs Hf H; simpl in H.
  - injection H as <-. constructor.
  - destruct (f a) eqn:Ea; [|discriminate].
    destruct (mapM f t) eqn:Et; [|discriminate].
    injection H as <-. constructor; eauto.
Qed.

Lemma pixelOK_zero : pixelOK (Fin 0).
Proof. simpl. lra. Qed.

Lemma clampScore_pixel : forall c b bin, c <> 0 -> pixelOK (clampScore (score c b bin)).
Proof.
  intros c b [ro io] Hc. rewrite clampScore_score. unfold compressedBin; cbn [fst snd].
  destruct (Rlt_dec 0 (ro * ro + io * io)); [apply clampR_range|].
  destruct (Rlt_dec 0 c); [simpl; lra|].
  destruct (Rlt_dec c 0); [simpl; lra|]. apply Hc. lra.
Qed.

Lemma logCompressLoop_pixels : forall cx c b is out row, c <> 0 ->
  Forall pixelOK out ->
  logCompressLoop castT out cx c b is = Some row -> Forall pixelOK row.
Proof.
  intros cx c b is. induction is as [|i is IH]; intros out row Hc Hout H; simpl in H.
  - injection H as <-. exact Hout.
  - destruct (at_ cx i) as [bin|]; [|discriminate]. unfold castT in H.
    eapply IH; [exact Hc| |exact H].
    apply Forall_set_nth; [exact Hout|apply clampScore_pixel; exact Hc].
Qed.

Lemma processLine_pixels : forall calib fringe N depth c b j bufs a l row, c <> 0 ->
  processLine calib fringe N depth c b j bufs = Some (a, l, row) -> Forall pixelOK row.
Proof.
  intros calib fringe N depth c b j bufs a l row Hc H. unfold processLine in H.
  destruct (subtractBackground _ _ _ _); [|discriminate].
  destruct (linearize _ _ _ _); [|discriminate].
  destruct (logCompress _ _ _ _ _ _) eqn:E; [|discriminate].
  injection H as _ _ <-. eapply logCompressLoop_pixels; [exact Hc| |exact E].
  apply Forall_forall. intros x Hx. apply repeat_spec in Hx. subst. apply pixelOK_zero.
Qed.

Lemma stripeLoop_pixels : forall calib fringe N depth c b js bufs ws, c <> 0 ->
  stripeLoop calib fringe N depth c b js bufs = Some ws ->
  Forall (fun w => Forall pixelOK (snd w)) ws.
Proof.
  intros calib fringe N depth c b js. induction js as [|j js IH]; intros bufs ws Hc H;
    simpl in H.
  - injection H as <-. constructor.
  - destruct (processLine _ _ _ _ _ _ j bufs) as [[[a l] row]|] eqn:E; [|discriminate].
    destruct (stripeLoop _ _ _ _ _ _ js (a, l)) eqn:E2; [|discriminate].
    injection H as <-.
    constructor; [eapply processLine_pixels; [exact Hc|exact E]|eapply IH; [exact Hc|exact E2]].
Qed.

Lemma writeRows_pixels : forall ws m,
  Forall (Forall pixelOK) m -> Forall (fun w => Forall pixelOK (snd w)) ws ->
  Forall (Forall pixelOK) (writeRows m ws).
Proof.
  unfold writeRows. intros ws. induction ws as [|w ws IH]; intros m Hm Hws; simpl; auto.
  inversion Hws; subst. apply IH; auto. apply Forall_set_nth; auto.
Qed.

Lemma assemble_pixels : forall calib fringe N depth c b stripes nLines rowsData, c <> 0 ->
  assemble calib fringe N depth c b stripes nLines = Some rowsData ->
  Forall (Forall pixelOK) rowsData.
Proof.
  intros calib fringe N depth c b stripes nLines rowsData Hc H. unfold assemble in H.
  destruct (mapM _ stripes) as [wss|] eqn:E; [|discriminate].
  injection H as <-. apply writeRows_pixels.
  - apply Forall_forall. intros r Hr. apply repeat_spec in Hr. subst.
    apply Forall_forall. intros x Hx. apply repeat_spec in Hx. subst. apply pixelOK_zero.
  - apply Forall_concat.
    eapply (mapM_Forall _ _ _ (Forall (fun w => Forall pixelOK (snd w)))); [|exact E].
    intros r ws Hr. eapply stripeLoop_pixels; [exact Hc|exact Hr].
Qed.

Lemma transpose_pixels : forall m,
  Forall (Forall pixelOK) (data m) -> Forall (Forall pixelOK) (data (transpose m)).
Proof.
  intros m Hm. unfold transpose. destruct (Nat.eqb _ 0); [constructor|]. simpl.
  apply Forall_map, Forall_forall. intros c _.
  apply Forall_map, Forall_forall. intros r _.
  apply Forall_nth_default; [|apply pixelOK_zero].
  apply (Forall_nth_default _ (Forall pixelOK)); [exact Hm|constructor].
Qed.

Lemma In_rotate : forall E (x : E) k n row, In x (rotate k n row) -> In x row.
Proof.
  intros E x k n row H. unfold rotate in H.
  assert (Hf : forall l, In x (firstn n l) -> In x l)
    by (intros l Hl; rewrite <- (firstn_skipn n l); apply in_or_app; left; exact Hl).
  apply in_app_or in H. destruct H as [H|H].
  - apply Hf. rewrite <- (firstn_skipn k (firstn n row)). apply in_or_app. right. exact H.
  - apply in_app_or in H. destruct H as [H|H].
    + apply Hf. rewrite <- (firstn_skipn k (firstn n row)). apply in_or_app. left. exact H.
    + rewrite <- (firstn_skipn n row). apply in_or_app. right. exact H.
Qed.

Lemma circshift_pixels : forall (m m' : Mat fl) s,
  Forall (Forall pixelOK) (data m) -> circshift 1 m s = Ok m' ->
  Forall (Forall pixelOK) (data m').
Proof.
  intros m m' s Hm H. unfold circshift in H.
  destruct (intAdd s _); try discriminate. simpl in H.
  destruct (_ =? 0)%Z; [discriminate|].
  destruct (intMul _ 1); try discriminate. simpl in H.
  destruct (intMul _ 1); try discriminate. simpl in H.
  destruct (_ || _)%Z; [|discriminate].
  injection H as <-. simpl. apply Forall_map. eapply Forall_impl; [|exact Hm].
  intros row Hrow. apply Forall_forall. intros x Hx.
  rewrite Forall_forall in Hrow. apply Hrow. eapply In_rotate. exact Hx.
Qed.

Lemma roundHalfEven_pixel : forall x, 0 <= x <= 255 ->
  (0 <= roundHalfEven x <= 255)%Z.
Proof.
  intros x [H0 H1]. unfold roundHalfEven.
  destruct (base_Int_part x) as [Hl Hu].
  set (f := Int_part x) in *.
  assert (Hf0 : (-1 < f)%Z) by (apply lt_IZR; lra).
  assert (Hf1 : (f <= 255)%Z) by (apply le_IZR; lra).
  destruct (Rlt_dec (x - IZR f) (/ 2)); [lia|].
  assert (Hf2 : (f < 255)%Z).
  { apply lt_IZR. destruct (Z.eq_dec f 255) as [E|E].
    - rewrite E in *. lra.
    - apply IZR_lt. lia. }
  destruct (Rlt_dec (/ 2) (x - IZR f)); [lia|]. destruct (Z.even f); lia.
Qed.

Lemma saturate_u8_pixel : forall x, pixelOK x -> saturate_u8 x = roundHalfEven (finPart x).
Proof.
  intros [x| | |] Hx; try contradiction. unfold saturate_u8, finPart.
  assert (H := roundHalfEven_pixel x Hx). lia.
Qed.

Lemma perFrame_pixels : forall pc rs ndebug stripes calib fringe N depth params M,
  contrast params <> 0 ->
  (length fringe / N)%nat <> 2200%nat ->
  perFrame pc rs ndebug stripes calib fringe N depth params = Ok M ->
  Forall (Forall pixelOK) (data M).
Proof.
  intros pc rs ndebug stripes calib fringe N depth params M Hc Hn H.
  unfold perFrame in H.
  destruct (Nat.eqb N 0); [discriminate|].
  destruct (negb ndebug && _); [discriminate|].
  destruct (assemble _ _ _ _ _ _ _ _) as [rowsData|] eqn:Ea; [|discriminate].
  cbn [res_bind of_opt] in H. unfold distortionCorrect in H.
  set (nL := (length fringe / N)%nat) in *.
  destruct (Nat.eqb nL 2500).
  - injection H as <-. apply transpose_pixels. eapply assemble_pixels; [exact Hc|exact Ea].
  - destruct (Nat.eqb_spec nL 2200) as [E|_]; [contradiction|].
    injection H as <-. apply transpose_pixels. eapply assemble_pixels; [exact Hc|exact Ea].
Qed.

Lemma alignStep_pixels : forall pc prev M aligned,
  Forall (Forall pixelOK) (data M) -> alignStep pc prev M = Ok aligned ->
  Forall (Forall pixelOK) (data aligned).
Proof.
  intros pc prev M aligned HM Eal. unfold alignStep in Eal. destruct (_ && _).
  - destruct (roundToInt _); try discriminate. cbn [res_bind] in Eal.
    eapply circshift_pixels; [exact HM|exact Eal].
  - injection Eal as <-. exact HM.
Qed.

Lemma pixels_finite : forall xss, Forall (Forall pixelOK) xss ->
  xss = map (map Fin) (map (map finPart) xss) /\
  Forall (Forall (fun r => 0 <= r <= 255)) (map (map finPart) xss).
Proof.
  induction xss as [|row xss IH]; intros H; [split; [reflexivity|constructor]|].
  inversion H as [|? ? Hrow Hrows]; subst. destruct (IH Hrows) as [E F].
  assert (Hr : row = map Fin (map finPart row) /\
               Forall (fun r => 0 <= r <= 255) (map finPart row)).
  { clear -Hrow. induction row as [|x row IHr]; [split; [reflexivity|constructor]|].
    inversion Hrow as [|? ? Hx Hrow']; subst. destruct (IHr Hrow') as [E F].
    destruct x as [x| | |]; try contradiction.
    split; [simpl; f_equal; exact E|constructor; [exact Hx|exact F]]. }
  destruct Hr as [Er Fr]. split.
  - simpl. rewrite <- Er, <- E. reflexivity.
  - constructor; [exact Fr|exact F].
Qed.

(** Outside the 2200-line distortion path (whose resize is external) and
    for a non-zero contrast, every pixel [reconBscan] keeps as [prevMat] is
    a finite value in [[0, 255]] (a zero bin, whose [log10] is [-inf],
    is clamped to 0 or 255), so the saturating 8-bit conversion never
    clips: the returned image is the round-half-even rounding of those
    values, with the same shape. *)
Theorem reconBscan_never_clips : forall pc rs ndebug stripes calib fringe ALineSize
    imageDepth params prevMat img prev',
  contrast params <> 0 ->
  (length fringe / ALineSize)%nat <> 2200%nat ->
  reconBscan pc rs ndebug stripes calib fringe ALineSize imageDepth params prevMat =
    Ok (img, prev') ->
  exists px,
    data prev' = map (map Fin) px /\
    Forall (Forall (fun r => 0 <= r <= 255)) px /\
    rows img = rows prev' /\ cols img = cols prev' /\
    data img = map (map roundHalfEven) px.
Proof.
  intros pc rs ndebug stripes calib fringe N depth params prev img prev' Hc Hn H.
  unfold reconBscan in H.
  destruct (perFrame pc rs ndebug stripes calib fringe N depth params) as [M| | |] eqn:EP;
    try discriminate. cbn [res_bind] in H.
  destruct (alignStep pc prev M) as [aligned| | |] eqn:Eal; try discriminate.
  cbn [res_bind] in H. injection H as <- <-.
  assert (Hal := alignStep_pixels pc prev M aligned
                   (perFrame_pixels _ _ _ _ _ _ _ _ _ _ Hc Hn EP) Eal).
  destruct (pixels_finite _ Hal) as [E F].
  exists (map (map finPart) (data aligned)). split; [exact E|]. split; [exact F|].
  split; [reflexivity|]. split; [reflexivity|].
  unfold convertU8. cbn [data]. rewrite map_map. apply map_ext_in. intros row Hrow.
  rewrite map_map. apply map_ext_in. intros x Hx.
  apply saturate_u8_pixel. rewrite Forall_forall in Hal. specialize (Hal row Hrow).
  rewrite Forall_forall in Hal. apply Hal. exact Hx.
Qed.

Lemma reconBscan_never_clips_witness :
  exists px,
    data (mkMat 1 2 [[Fin (/ 4); Fin 0]]) = map (map Fin) px /\
    Forall (Forall (fun r => 0 <= r <= 255)) px /\
    rows (mkMat 1 2 [[0%Z; 0%Z]]) = rows (mkMat 1 2 [[Fin (/ 4); Fin 0]]) /\
    cols (mkMat 1 2 [[0%Z; 0%Z]]) = cols (mkMat 1 2 [[Fin (/ 4); Fin 0]]) /\
    data (mkMat 1 2 [[0%Z; 0%Z]]) = map (map roundHalfEven) px.
Proof.
  apply (reconBscan_never_clips Examples.pcZero Examples.resizeKeep true [(0, 2)%nat]
           Examples.calibEx [1%Z; 0%Z; 0%Z; 0%Z] 2 1 Examples.paramsEx emptyMat).
  - simpl. lra.
  - simpl. lia.
  - apply reconBscan_example2.
Defined.

End PixelRange.

(** ** Acquisition: whole runs and hardware initialisation (DAQ.cpp) *)


Lemma acqLoop_prefix_from0 : forall hw snk n err0 K,
  (K <= n)%nat -> (forall k, (k < K)%nat -> goodIter hw snk k) ->
  DAQ.acqLoop hw snk n n (goodState hw snk err0 0) =
  DAQ.acqLoop hw snk n (n - K) (goodState hw snk err0 K).
Proof.
  intros hw snk n err0 K HK Hg.
  replace n with (K + (n - K))%nat at 2 by lia.
  apply (acqLoop_good_prefix hw snk n err0 K 0 (n - K)); intros; try apply Hg; lia.
Qed.

(** A run whose setup calls all succeed and whose first [K] iterations
    go well ends after [K] buffers (when [K] is the requested count or a
    stop was requested) and returns true: buffers [0..K-1] were waited on,
    pushed to the ring, saved when the file is open, and reposted. *)
Theorem acquire_all_good : forall hw snk poolSize buffersToAcquire err0 K,
  DAQ.beforeAsyncRead hw = DAQ.ApiSuccess ->
  (forall b, (b < poolSize)%nat -> DAQ.postBuffer hw b = DAQ.ApiSuccess) ->
  DAQ.startCapture hw = DAQ.ApiSuccess ->
  (K <= buffersToAcquire)%nat ->
  (forall k, (k < K)%nat -> goodIter hw snk k) ->
  K = buffersToAcquire \/ DAQ.stopRequested hw K = true ->
  DAQ.acquire hw snk poolSize buffersToAcquire err0 =
  (true, DAQ.mkAcq K true err0 (map (fun k => (k, DAQ.bufferData hw k)) (seq 0 K))
           (if DAQ.isOpen snk then seq 0 K else []) (seq 0 K) K [] true).
Proof.
  intros hw snk poolSize n err0 K Hb Hp Hs HK Hg Hend.
  rewrite (acquire_setup_ok hw snk n err0 poolSize Hb Hp Hs).
  rewrite (acqLoop_prefix_from0 hw snk n err0 K HK Hg).
  assert (E : DAQ.acqLoop hw snk n (n - K) (goodState hw snk err0 K) = goodState hw snk err0 K).
  { destruct Hend as [<-|Hstop].
    - rewrite Nat.sub_diag. reflexivity.
    - destruct (n - K)%nat; [reflexivity|]. simpl. rewrite Hstop. reflexivity. }
  rewrite E. reflexivity.
Qed.

(** A failed [AlazarPostAsyncBuffer] at buffer [K] ends the run there
    with false, after buffer [K] was already pushed to the ring and saved;
    the failure is logged with the SDK's text of the code. *)
Theorem acquire_repost_failure : forall hw snk poolSize buffersToAcquire err0 K,
  DAQ.beforeAsyncRead hw = DAQ.ApiSuccess ->
  (forall b, (b < poolSize)%nat -> DAQ.postBuffer hw b = DAQ.ApiSuccess) ->
  DAQ.startCapture hw = DAQ.ApiSuccess ->
  (K < buffersToAcquire)%nat ->
  (forall k, (k < K)%nat -> goodIter hw snk k) ->
  DAQ.stopRequested hw K = false ->
  DAQ.waitComplete hw K = DAQ.ApiSuccess ->
  (DAQ.isOpen snk = false \/ DAQ.writeSucceeds snk K = true) ->
  DAQ.repost hw K <> DAQ.ApiSuccess ->
  DAQ.acquire hw snk poolSize buffersToAcquire err0 =
  (false, DAQ.mkAcq (S K) false err0 (map (fun k => (k, DAQ.bufferData hw k)) (seq 0 (S K)))
            (if DAQ.isOpen snk then seq 0 (S K) else []) (seq 0 (S K)) (S K)
            [DAQ.msgRepostFailed (DAQ.errorText hw (DAQ.repost hw K))] true).
Proof.
  intros hw snk poolSize n err0 K Hb Hp Hs HK Hg Hstop Hwait Hsave Hrep.
  rewrite (acquire_setup_ok hw snk n err0 poolSize Hb Hp Hs).
  rewrite (acqLoop_prefix_from0 hw snk n err0 K ltac:(lia) Hg).
  replace (n - K)%nat with (S (n - S K)) by lia.
  assert (Hr : DAQ.isSuccess (DAQ.repost hw K) = false)
    by (destruct (DAQ.repost hw K); [congruence|reflexivity..]).
  rewrite !seq_S, !map_app.
  simpl. rewrite Hstop. replace (Nat.ltb K n) with true
    by (symmetry; apply Nat.ltb_lt; exact HK). simpl.
  unfold DAQ.iteration, goodState. simpl. rewrite Hwait.
  destruct (DAQ.isOpen snk) eqn:Eo.
  - destruct Hsave as [Hc|Hw]; [discriminate|].
    unfold DAQ.saveBuffer. simpl. rewrite Hw. simpl.
    unfold DAQ.repostStep. simpl. rewrite Hr. simpl.
    destruct (n - S K)%nat; reflexivity.
  - unfold DAQ.repostStep. simpl. rewrite Hr. simpl.
    destruct (n - S K)%nat; reflexivity.
Qed.

(** A failure of [AlazarBeforeAsyncRead], of any initial buffer post or
    of [AlazarStartCapture] returns false before any buffer is waited on,
    pushed, saved or reposted, with the error message unchanged. *)
Theorem acquire_setup_failure : forall hw snk poolSize buffersToAcquire err0,
  DAQ.beforeAsyncRead hw <> DAQ.ApiSuccess \/
  (exists b, (b < poolSize)%nat /\ DAQ.postBuffer hw b <> DAQ.ApiSuccess) \/
  DAQ.startCapture hw <> DAQ.ApiSuccess ->
  let res := DAQ.acquire hw snk poolSize buffersToAcquire err0 in
  fst res = false /\ DAQ.waits (snd res) = 0%nat /\ DAQ.buffersCompleted (snd res) = 0%nat /\
  DAQ.ring (snd res) = [] /\ DAQ.saved (snd res) = [] /\ DAQ.reposted (snd res) = [] /\
  DAQ.errMsg (snd res) = err0.
Proof.
  intros hw snk poolSize n err0 H res. subst res.
  cut (DAQ.acquire hw snk poolSize n err0 = (false, DAQ.mkAcq 0 true err0 [] [] [] 0 [] true));
    [intros E; rewrite E; repeat split; reflexivity|].
  unfold DAQ.acquire.
  assert (Hns : forall r, r <> DAQ.ApiSuccess -> DAQ.isSuccess r = false)
    by (intros r Hr; destruct r; [congruence|reflexivity..]).
  destruct (DAQ.isSuccess (DAQ.beforeAsyncRead hw)) eqn:Eb; [|reflexivity].
  destruct (forallb _ (seq 0 poolSize)) eqn:Ep; [|reflexivity].
  destruct (DAQ.isSuccess (DAQ.startCapture hw)) eqn:Es; [|reflexivity].
  exfalso. destruct H as [H|[(b & Hb & H)|H]].
  - rewrite Hns in Eb by exact H. discriminate.
  - rewrite forallb_forall in Ep. specialize (Ep b ltac:(apply in_seq; lia)).
    rewrite Hns in Ep by exact H. discriminate.
  - rewrite Hns in Es by exact H. discriminate.
Qed.

Lemma acquire_all_good_witness :
  DAQ.acquire Examples.boardOK Examples.sinkOK 2 3 EmptyString =
  (true, DAQ.mkAcq 3 true EmptyString (map (fun k => (k, DAQ.bufferData Examples.boardOK k)) (seq 0 3))
           (if DAQ.isOpen Examples.sinkOK then seq 0 3 else []) (seq 0 3) 3 [] true).
Proof.
  apply (acquire_all_good Examples.boardOK Examples.sinkOK 2 3 EmptyString 3);
    try reflexivity; try lia; auto.
  intros k Hk. unfold goodIter. simpl. auto.
Defined.

Lemma acquire_repost_failure_witness :
  DAQ.acquire Examples.boardRepostFailAt1 Examples.sinkOK 2 3 EmptyString =
  (false, DAQ.mkAcq 2 false EmptyString
            (map (fun k => (k, DAQ.bufferData Examples.boardRepostFailAt1 k)) (seq 0 2))
            (if DAQ.isOpen Examples.sinkOK then seq 0 2 else []) (seq 0 2) 2
            [DAQ.msgRepostFailed "ApiFailed"] true).
Proof.
  apply (acquire_repost_failure Examples.boardRepostFailAt1 Examples.sinkOK 2 3 EmptyString 1);
    try reflexivity; try lia.
  - intros k Hk. replace k with 0%nat by lia. unfold goodIter. simpl. auto.
  - right. reflexivity.
  - simpl. discriminate.
Defined.

Lemma acquire_setup_failure_witness :
  let res := DAQ.acquire Examples.boardNoCapture Examples.sinkOK 2 3 EmptyString in
  fst res = false /\ DAQ.waits (snd res) = 0%nat /\ DAQ.buffersCompleted (snd res) = 0%nat /\
  DAQ.ring (snd res) = [] /\ DAQ.saved (snd res) = [] /\ DAQ.reposted (snd res) = [] /\
  DAQ.errMsg (snd res) = EmptyString.
Proof.
  apply acquire_setup_failure. right. right. simpl. discriminate.
Defined.

Lemma configCalls_ok : forall call n i,
  (forall k, (i <= k < i + n)%nat -> call k = DAQ.ApiSuccess) ->
  DAQ.configCalls call i n = (true, seq i n).
Proof.
  intros call n. induction n as [|n IH]; intros i H; [reflexivity|].
  simpl. rewrite (H i ltac:(lia)). simpl. rewrite IH by (intros; apply H; lia). reflexivity.
Qed.

Lemma configCalls_fail : forall call n i j,
  (i <= j < i + n)%nat ->
  (forall k, (i <= k < j)%nat -> call k = DAQ.ApiSuccess) -> call j <> DAQ.ApiSuccess ->
  DAQ.configCalls call i n = (false, seq i (S (j - i))).
Proof.
  intros call n. induction n as [|n IH]; intros i j Hj H Hf; [lia|].
  simpl. destruct (Nat.eq_dec i j) as [<-|Hne].
  - replace (DAQ.isSuccess (call i)) with false
      by (destruct (call i); [congruence|reflexivity..]).
    rewrite Nat.sub_diag. reflexivity.
  - rewrite (H i ltac:(lia)). simpl.
    rewrite (IH (S i) j) by (first [lia | intros; apply H; lia | exact Hf]).
    replace (j - i)%nat with (S (j - S i)) by lia. reflexivity.
Qed.

(** When all eight configuration calls succeed, [initHardware] makes
    them all, in order, and returns true; a missing board only sets the
    error message and does not stop the calls. *)
Theorem initHardware_all_ok : forall hw err0,
  (forall i, (i < 8)%nat -> DAQ.initCall hw i = DAQ.ApiSuccess) ->
  DAQ.initHardware hw err0 =
  (true, seq 0 8, if DAQ.boardFound hw then err0 else DAQ.msgBoardInit).
Proof.
  intros hw err0 H. unfold DAQ.initHardware.
  rewrite configCalls_ok by (intros; apply H; lia). reflexivity.
Qed.

(** [initHardware] stops at the first failing configuration call
    [j] and returns false; calls after [j] are never made. *)
Theorem initHardware_stops_at_first_failure : forall hw err0 j,
  (j < 8)%nat ->
  (forall i, (i < j)%nat -> DAQ.initCall hw i = DAQ.ApiSuccess) ->
  DAQ.initCall hw j <> DAQ.ApiSuccess ->
  DAQ.initHardware hw err0 =
  (false, seq 0 (S j), if DAQ.boardFound hw then err0 else DAQ.msgBoardInit).
Proof.
  intros hw err0 j Hj H Hf. unfold DAQ.initHardware.
  rewrite (configCalls_fail _ 8 0 j) by (first [lia | intros; apply H; lia | exact Hf]).
  rewrite Nat.sub_0_r. reflexivity.
Qed.

Lemma initHardware_all_ok_witness :
  DAQ.initHardware (DAQ.mkInitBoard false (fun _ => DAQ.ApiSuccess)) EmptyString =
  (true, seq 0 8, DAQ.msgBoardInit).
Proof. apply initHardware_all_ok. intros. reflexivity. Defined.

Lemma initHardware_stops_at_first_failure_witness :
  DAQ.initHardware
    (DAQ.mkInitBoard true (fun i => if Nat.eqb i 3 then DAQ.ApiOther 513 else DAQ.ApiSuccess))
    EmptyString = (false, seq 0 4, EmptyString).
Proof.
  apply (initHardware_stops_at_first_failure
           (DAQ.mkInitBoard true (fun i => if Nat.eqb i 3 then DAQ.ApiOther 513 else DAQ.ApiSuccess))
           EmptyString 3); [lia| |simpl; discriminate].
  intros i Hi. simpl. destruct (Nat.eqb_spec i 3); [lia|reflexivity].
Defined.

(** ** A-line locality (OCTRecon.hpp) *)


Section Locality.
Import Recon.
Local Open Scope R_scope.

Lemma lineOut_agree : forall calib f1 f2 N depth c b j,
  (forall i, (i < N)%nat -> nth_error f1 (j * N + i) = nth_error f2 (j * N + i)) ->
  lineOut calib f1 N depth c b j = lineOut calib f2 N depth c b j.
Proof.
  intros calib f1 f2 N depth c b j H.
  unfold lineOut, processLine, subtractBackground.
  rewrite (mapM_ext_in _ _
    (fun i => match at_ f1 (j * N + i), at_ (background calib) i with
              | Some f, Some b0 => Some (IZR f - b0) | _, _ => None end)
    (fun i => match at_ f2 (j * N + i), at_ (background calib) i with
              | Some f, Some b0 => Some (IZR f - b0) | _, _ => None end)).
  - reflexivity.
  - intros i Hi. apply in_seq in Hi. unfold at_. rewrite H by lia. reflexivity.
Qed.

Lemma mapM_nth_Some : forall A B (f : A -> option B) l bs i d e,
  mapM f l = Some bs -> (i < length l)%nat -> f (nth i l d) = Some (nth i bs e).
Proof. intros A B f l bs i d e H Hi. apply (proj2 (mapM_Some _ _ _ _ _ H)). exact Hi. Qed.

(** Row [j] of the image depends only on A-line [j] of the fringe:
    two fringes agreeing on samples [j*ALineSize .. j*ALineSize + ALineSize - 1]
    give the same row, whatever the rest and the stripe layout. *)
Theorem assemble_line_local : forall calib f1 f2 N depth c b stripes nLines rows1 rows2 j,
  validStripes stripes nLines -> (j < nLines)%nat ->
  (forall i, (i < N)%nat -> nth_error f1 (j * N + i) = nth_error f2 (j * N + i)) ->
  assemble calib f1 N depth c b stripes nLines = Some rows1 ->
  assemble calib f2 N depth c b stripes nLines = Some rows2 ->
  nth j rows1 [] = nth j rows2 [].
Proof.
  intros calib f1 f2 N depth c b stripes nLines rows1 rows2 j Hv Hj Hag H1 H2.
  rewrite assemble_reference in H1, H2 by exact Hv.
  assert (E1 := mapM_nth_Some _ _ _ _ _ j 0%nat [] H1 ltac:(rewrite length_seq; exact Hj)).
  assert (E2 := mapM_nth_Some _ _ _ _ _ j 0%nat [] H2 ltac:(rewrite length_seq; exact Hj)).
  rewrite seq_nth in E1, E2 by exact Hj. simpl in E1, E2.
  rewrite (lineOut_agree calib f1 f2 N depth c b j Hag) in E1. congruence.
Qed.

End Locality.



Section LocalityWitness.
Local Open Scope R_scope.

(** the rows of two two-line fringes under [calibEx], stripes run in
    reverse order: A-line 0 differs ([1, 0] against [0, 0]), A-line 1 is
    [1, 0] in both *)
Lemma assemble_example : forall a,
  Recon.assemble Examples.calibEx [a; 0%Z; 1%Z; 0%Z] 2 1 1 (/ 4) [(1, 2)%nat; (0, 1)%nat] 2 =
  Some [[compressedBin 1 (/ 4) (IZR a, 0)]; [Recon.Fin (/ 4)]].
Proof.
  intros a. rewrite assemble_reference
    by (apply validStripesb_sound; vm_compute; reflexivity).
  cbn [seq mapM]. rewrite !lineOut_ex. cbn [nth_error Nat.mul Nat.add].
  rewrite compressedBin_ex1. reflexivity.
Qed.

Lemma assemble_line_local_witness :
  Recon.validStripes [(1, 2)%nat; (0, 1)%nat] 2 /\
  Recon.assemble Examples.calibEx [1%Z; 0%Z; 1%Z; 0%Z] 2 1 1 (/ 4)
    [(1, 2)%nat; (0, 1)%nat] 2 = Some [[Recon.Fin (/ 4)]; [Recon.Fin (/ 4)]] /\
  Recon.assemble Examples.calibEx [0%Z; 0%Z; 1%Z; 0%Z] 2 1 1 (/ 4)
    [(1, 2)%nat; (0, 1)%nat] 2 = Some [[Recon.Fin 0]; [Recon.Fin (/ 4)]] /\
  nth 1 [[Recon.Fin (/ 4)]; [Recon.Fin (/ 4)]] [] = nth 1 [[Recon.Fin 0]; [Recon.Fin (/ 4)]] [].
Proof.
  assert (Hv : Recon.validStripes [(1, 2)%nat; (0, 1)%nat] 2)
    by (apply validStripesb_sound; reflexivity).
  assert (H1 : Recon.assemble Examples.calibEx [1%Z; 0%Z; 1%Z; 0%Z] 2 1 1 (/ 4)
                 [(1, 2)%nat; (0, 1)%nat] 2 = Some [[Recon.Fin (/ 4)]; [Recon.Fin (/ 4)]])
    by (rewrite assemble_example, compressedBin_ex1; reflexivity).
  assert (H2 : Recon.assemble Examples.calibEx [0%Z; 0%Z; 1%Z; 0%Z] 2 1 1 (/ 4)
                 [(1, 2)%nat; (0, 1)%nat] 2 = Some [[Recon.Fin 0]; [Recon.Fin (/ 4)]])
    by (rewrite assemble_example, compressedBin_ex0; reflexivity).
  split; [exact Hv|]. split; [exact H1|]. split; [exact H2|].
  apply (assemble_line_local Examples.calibEx [1%Z; 0%Z; 1%Z; 0%Z] [0%Z; 0%Z; 1%Z; 0%Z]
           2 1 1 (/ 4) [(1, 2)%nat; (0, 1)%nat] 2 _ _ 1 Hv).
  - lia.
  - intros i Hi. destruct i as [|[|i]]; [reflexivity|reflexivity|lia].
  - exact H1.
  - exact H2.
Defined.

End LocalityWitness.

(** ** Alignment of consecutive frames (OCTRecon.hpp) *)


(** When [prevMat] has the shape of the new frame and the phase
    correlation returns a finite shift [x], [reconBscan] rotates every row
    left by [std::round(x)] and returns the rotated frame as the new
    [prevMat], with its 8-bit image. *)
Theorem reconBscan_aligns_by_rotation : forall pc rs ndebug stripes calib fringe ALineSize
    imageDepth params prevMat M x,
  Recon.perFrame pc rs ndebug stripes calib fringe ALineSize imageDepth params = Ok M ->
  wfMat M -> (0 < cols M)%nat -> (Z.of_nat (cols M) <= INT_MAX)%Z ->
  cols prevMat = cols M -> rows prevMat = rows M ->
  pc prevMat M = Recon.Fin x ->
  (- Z.of_nat (cols M) <= Recon.std_round x)%Z ->
  (Recon.std_round x + Z.of_nat (cols M) <= INT_MAX)%Z ->
  exists M', Recon.reconBscan pc rs ndebug stripes calib fringe ALineSize imageDepth params
               prevMat = Ok (Recon.convertU8 M', M') /\
    rows M' = rows M /\ cols M' = cols M /\
    forall r j d, (r < rows M)%nat -> (j < cols M)%nat ->
      nth j (nth r (data M') []) d =
      nth ((j + Z.to_nat (Recon.std_round x mod Z.of_nat (cols M))) mod cols M)
        (nth r (data M) []) d.
Proof.
  intros pc rs ndebug stripes calib fringe N depth params prev M x HM Hwf Hc Hcm Hcols Hrows
    Hpc Hlo Hhi.
  destruct (circshift_spec Recon.fl M (Recon.std_round x) Hwf Hc Hcm Hlo Hhi)
    as (M' & E & _ & Hr & Hc' & Hn).
  exists M'. split; [|split; [exact Hr|split; [exact Hc'|exact Hn]]].
  unfold Recon.reconBscan. rewrite HM. cbn [res_bind]. unfold Recon.alignStep.
  rewrite Hcols, Hrows, !Nat.eqb_refl. cbn [andb].
  rewrite Hpc. unfold Recon.roundToInt.
  rewrite toInt_in by (unfold INT_MIN, INT_MAX in *; lia). cbn [res_bind].
  rewrite E. reflexivity.
Qed.

Lemma std_round_1 : Recon.std_round 1 = 1%Z.
Proof.
  unfold Recon.std_round. destruct (Rle_dec 0 1) as [_|H]; [|lra].
  assert (Hu : up (1 + / 2) = 2%Z) by (symmetry; apply tech_up; simpl; lra).
  unfold Int_part. rewrite Hu. reflexivity.
Qed.

(** three A-lines [1, 0], [0, 0], [1, 0] against a previous frame of the
    same shape, the phase correlation reporting a shift of 1: the row
    [1/4, 0, 1/4] becomes [0, 1/4, 1/4] *)
Lemma reconBscan_aligns_by_rotation_witness :
  let M := mkMat 1 3 [[Recon.Fin (/ 4); Recon.Fin 0; Recon.Fin (/ 4)]] in
  let prev := mkMat 1 3 [[Recon.Fin 0; Recon.Fin 0; Recon.Fin 0]] in
  exists M', Recon.reconBscan Examples.pcOne Examples.resizeKeep true [(0, 3)%nat]
               Examples.calibEx [1%Z; 0%Z; 0%Z; 0%Z; 1%Z; 0%Z] 2 1 Examples.paramsEx prev =
             Ok (Recon.convertU8 M', M') /\
    rows M' = rows M /\ cols M' = cols M /\
    forall r j d, (r < rows M)%nat -> (j < cols M)%nat ->
      nth j (nth r (data M') []) d =
      nth ((j + Z.to_nat (Recon.std_round 1 mod Z.of_nat (cols M))) mod cols M)
        (nth r (data M) []) d.
Proof.
  intros M prev.
  apply (reconBscan_aligns_by_rotation Examples.pcOne Examples.resizeKeep true [(0, 3)%nat]
           Examples.calibEx [1%Z; 0%Z; 0%Z; 0%Z; 1%Z; 0%Z] 2 1 Examples.paramsEx prev M 1).
  - apply perFrame_example3.
  - split; [reflexivity|repeat constructor].
  - simpl. lia.
  - unfold INT_MAX. simpl. lia.
  - reflexivity.
  - reflexivity.
  - reflexivity.
  - rewrite std_round_1. simpl. lia.
  - rewrite std_round_1. unfold INT_MAX. simpl. lia.
Defined.

(** ** Calibration size against the A-line size *)

(** [reconBscan] reads [background[i]] for every [i < ALineSize] of every
    A-line; a background of fewer than [ALineSize] samples (a [Calibration]
    built with a smaller [n_samples]) makes every frame with at least one
    A-line undefined behaviour. *)
Theorem reconBscan_short_background_ub : forall pc rs ndebug stripes calib fringe ALineSize
    imageDepth params prevMat,
  (0 < ALineSize)%nat ->
  (length (Recon.background calib) < ALineSize)%nat ->
  (0 < length fringe / ALineSize)%nat ->
  Recon.validStripes stripes (length fringe / ALineSize) ->
  ndebug = true \/ (length fringe mod ALineSize = 0)%nat ->
  Recon.reconBscan pc rs ndebug stripes calib fringe ALineSize imageDepth params prevMat = UB.
Proof.
  intros pc rs ndebug stripes calib fringe N depth params prev HN Hbg Hl Hv Hnd.
  unfold Recon.reconBscan, Recon.perFrame.
  replace (Nat.eqb N 0) with false by (symmetry; apply Nat.eqb_neq; lia).
  replace (negb ndebug && negb (Nat.eqb (length fringe mod N) 0)) with false
    by (destruct Hnd as [Hd|Hd]; rewrite Hd; [reflexivity|rewrite Nat.eqb_refl, andb_false_r; reflexivity]).
  rewrite assemble_reference by exact Hv.
  replace (mapM _ (seq 0 (length fringe / N))) with (@None (list (list Recon.fl))).
  - reflexivity.
  - symmetry. apply mapM_None. exists 0%nat. split; [apply in_seq; lia|].
    unfold lineOut, Recon.processLine.
    replace (Recon.subtractBackground calib fringe N (0 * N)) with (@None (list R)); [reflexivity|].
    symmetry. apply mapM_None. exists (length (Recon.background calib)).
    split; [apply in_seq; lia|].
    unfold at_. replace (nth_error (Recon.background calib) (length (Recon.background calib)))
      with (@None R) by (symmetry; apply nth_error_None; lia).
    destruct (nth_error fringe _); reflexivity.
Qed.

(** [reconBscan_short_background_ub] at a one-sample background and a
    two-sample A-line. *)
Lemma reconBscan_short_background_ub_witness :
  Recon.reconBscan Examples.pcZero Examples.resizeKeep true [(0, 1)%nat]
    (Recon.mkCalib [0%R] [Recon.mkUnit 0 1 0; Recon.mkUnit 0 0 0]) [1%Z; 0%Z] 2 1
    Examples.paramsEx emptyMat = UB.
Proof.
  apply reconBscan_short_background_ub.
  - lia.
  - simpl. lia.
  - simpl. lia.
  - apply validStripesb_sound. reflexivity.
  - left. reflexivity.
Defined.
